(** * rframe: label-based indexing over remote data stores

    A shallow embedding of [rframe/interfaces/rest.py] and
    [rframe/rframe.py].  Python values are an inductive type, a raised
    exception is a value of [exn], and a function that may raise returns
    a [result]. *)

From Stdlib Require Import List String ZArith Bool Arith Lia.
Import ListNotations.
Open Scope string_scope.
Set Warnings "-register-all".

(** ** Python values, exceptions and dicts *)

Module Py.

(** The values that flow through the indexing code: labels, keys,
    records.  A [PDict] keeps its entries in insertion order, as Python
    dicts do; keys are strings, which is all the code looks up.  A
    [PObj] is any other object: its class name and its attributes (a
    pandas Interval, a datetime, a schema instance, ...).  Floats are
    left out. *)
Inductive pyval : Type :=
| PNone
| PInt (z : Z)
| PStr (s : string)
| PTuple (items : list pyval)
| PList (items : list pyval)
| PDict (entries : list (string * pyval))
| PSlice (start stop step : pyval)
| PObj (cls : string) (attrs : list (string * pyval)).

Definition dict : Type := list (string * pyval).

(** The payload of a [KeyError]: which message was formatted, with the
    values interpolated into it. *)
Inductive key_msg : Type :=
| Msg_key (k : string)
    (* a missing dict key, d[k] *)
| Msg_no_records
    (* "Selection returned no records." *)
| Msg_no_values
    (* "Selection returned no values." *)
| Msg_not_a_column (index : pyval)
    (* f"{index} is not a dataframe column." *)
| Msg_ill_defined_location
    (* "ill-defined location. Specify .at[index,column] where index can be a tuple." *)
| Msg_not_found (column : pyval) (columns : list string)
    (* f"{column} not found. Valid columns are: {self.obj.columns}" *)
| Msg_not_unique_index (index : list pyval)
    (* f"{index} is not unique index." *)
| Msg_under_defined_index (index : list pyval).
    (* f"{index} is an under defined index." *)

Inductive exn : Type :=
| KeyError (msg : key_msg)
| ValueError (msg : string)
| TypeError (msg : string)
| AttributeError (attr : string)
| IndexError (msg : string)
| NotImplementedError
| UnboundLocalError (var : string)
| InsertionError (msg : string)
| OtherError (msg : string).

Inductive result (A : Type) : Type :=
| Ok (a : A)
| Raise (e : exn).

Arguments Ok {A} a.
Arguments Raise {A} e.

Definition bind {A B : Type} (c : result A) (k : A -> result B) : result B :=
  match c with
  | Ok a => k a
  | Raise e => Raise e
  end.

Notation "x <- c ;; k" := (bind c (fun x => k))
  (at level 61, c at next level, right associativity).

(** [[f(x) for x in xs]]: left to right, the first exception ends it. *)
Fixpoint map_result {A B : Type} (f : A -> result B) (xs : list A)
  : result (list B) :=
  match xs with
  | [] => Ok []
  | x :: xs' => y <- f x ;; ys <- map_result f xs' ;; Ok (y :: ys)
  end.

(** *** Dicts *)

Fixpoint dict_get (d : dict) (k : string) : option pyval :=
  match d with
  | [] => None
  | (k', v) :: d' => if String.eqb k' k then Some v else dict_get d' k
  end.

(** [k in d] *)
Definition dict_contains (d : dict) (k : string) : bool :=
  match dict_get d k with Some _ => true | None => false end.

(** [d[k]] *)
Definition dict_getitem (d : dict) (k : string) : result pyval :=
  match dict_get d k with
  | Some v => Ok v
  | None => Raise (KeyError (Msg_key k))
  end.

(** [d[k] = v]: an existing key keeps its place, a new one goes last. *)
Fixpoint dict_set (d : dict) (k : string) (v : pyval) : dict :=
  match d with
  | [] => [(k, v)]
  | (k', v') :: d' =>
      if String.eqb k' k then (k', v) :: d' else (k', v') :: dict_set d' k v
  end.

(** [d.update(other)] *)
Definition dict_update (d other : list (string * pyval)) : dict :=
  fold_left (fun acc kv => dict_set acc (fst kv) (snd kv)) other d.

(** [{k: v for k, v in pairs}] *)
Definition dict_of_pairs (pairs : list (string * pyval)) : dict :=
  dict_update [] pairs.

Definition dict_keys (d : dict) : list string := map fst d.

(** [d.values()] *)
Definition dict_values (d : dict) : list pyval := map snd d.

(** [hasattr(v, a)]: of the values modelled, only a [PObj] carries
    attributes of the names the code asks for. *)
Definition hasattr (v : pyval) (a : string) : bool :=
  match v with
  | PObj _ attrs => dict_contains attrs a
  | _ => false
  end.

(** [v.a] *)
Definition getattr (v : pyval) (a : string) : result pyval :=
  match v with
  | PObj _ attrs =>
      match dict_get attrs a with
      | Some x => Ok x
      | None => Raise (AttributeError a)
      end
  | _ => Raise (AttributeError a)
  end.

(** [c in names] for a list of strings: only an equal string is in. *)
Definition py_in (c : pyval) (names : list string) : bool :=
  match c with
  | PStr s => existsb (String.eqb s) names
  | _ => false
  end.

(** [iter(v)], as [zip] and [*v] consume it. *)
Definition py_iter (v : pyval) : result (list pyval) :=
  match v with
  | PTuple xs | PList xs => Ok xs
  | PDict d => Ok (map PStr (dict_keys d))
  | PStr s =>
      Ok (map (fun c => PStr (String c EmptyString)) (list_ascii_of_string s))
  | _ => Raise (TypeError "object is not iterable")
  end.

(** [if not isinstance(x, tuple): x = (x,)] *)
Definition as_tuple (x : pyval) : list pyval :=
  match x with
  | PTuple xs => xs
  | _ => [x]
  end.

End Py.

Import Py.

(** ** rframe/interfaces/rest.py *)

Module Rest.

(** Modelled from the spec: the REST client class ([rframe.rest_client]),
    absent from the sources (a "transport-level client", an external
    collaborator).  [RestClient(url, headers)] is the pair of its
    constructor arguments. *)
Record RestClient : Type := { url : string; headers : pyval }.

Record RestQuery : Type := { client : RestClient; params : dict }.

(** [{'left': left, 'right': right}] *)
Definition canonical (left_ right_ : pyval) : pyval :=
  PDict [("left", left_); ("right", right_)].

Fixpoint serializable_interval (interval : pyval) : result pyval :=
  match interval with
  | PList items =>
      ivs <- (fix each (l : list pyval) : result (list pyval) :=
                match l with
                | [] => Ok []
                | iv :: l' =>
                    x <- serializable_interval iv ;;
                    xs <- each l' ;;
                    Ok (x :: xs)
                end) items ;;
      Ok (PList ivs)
  | PTuple [left_; right_] => Ok (canonical left_ right_)
  | PTuple (_ :: _ :: _ :: _) =>
      Raise (ValueError "too many values to unpack (expected 2)")
  | PTuple _ =>
      Raise (ValueError "not enough values to unpack (expected 2)")
  | PDict d =>
      left_ <- dict_getitem d "left" ;;
      right_ <- dict_getitem d "right" ;;
      Ok (canonical left_ right_)
  | PSlice start stop _ => Ok (canonical start stop)
  | _ =>
      if hasattr interval "left" && hasattr interval "right" then
        left_ <- getattr interval "left" ;;
        right_ <- getattr interval "right" ;;
        Ok (canonical left_ right_)
      else Ok (canonical interval interval)
  end.

(** [RestInterface]: [self.source] is the client. *)
Record RestInterface : Type := { source : RestClient }.

(** [url.startswith(p)] *)
Definition startswith (s p : string) : bool := String.prefix p s.

Definition from_url (url : string) (headers : pyval) : result RestInterface :=
  if startswith url "http://" || startswith url "https://" then
    Ok {| source := {| url := url; headers := headers |} |}
  else Raise NotImplementedError.

(** Modelled from the spec: the index descriptor classes
    ([rframe.indexes]), absent from the sources ("variants, each
    carrying a [name]"; a composite is "an ordered sequence of child
    descriptors").  A descriptor is its class and its [name]; a
    [MultiIndex] has its children in [indexes].  [IndexSeq] is a plain
    Python list or tuple of descriptors (no [name] attribute) and
    [OtherIndex] any descriptor class with no registered case. *)
Inductive index : Type :=
| Index (name : string)
| InterpolatingIndex (name : string)
| IntervalIndex (name : string)
| MultiIndex (name : string) (indexes : list index)
| IndexSeq (indexes : list index)
| OtherIndex (name : string).

(** [idx.name] *)
Definition index_name (idx : index) : result string :=
  match idx with
  | Index n | InterpolatingIndex n | IntervalIndex n
  | MultiIndex n _ | OtherIndex n => Ok n
  | IndexSeq _ => Raise (AttributeError "name")
  end.

(** [labels.values()]: of the values modelled only a dict has the
    method. *)
Definition values (labels : pyval) : result (list pyval) :=
  match labels with
  | PDict d => Ok (dict_values d)
  | _ => Raise (AttributeError "values")
  end.

(** [if idx.name in query.params: params[idx.name] = query.params[idx.name]] *)
Definition merge_own (params : dict) (name : string) (query : RestQuery) : dict :=
  match dict_get query.(Rest.params) name with
  | Some v => dict_set params name v
  | None => params
  end.

(** [compile_query], a single-dispatch method on the class of [index]
    (the decorator is outside the sources; the specification has the
    compiler "dispatched by descriptor variant"); [simple_query],
    [interval_query] and [multi_query] are its registered cases and the
    undecorated body the case of any other class.  The loop of
    [multi_query] is the local [loop]. *)
Fixpoint compile_query (self : RestInterface) (index : index) (label : pyval)
  {struct index} : result RestQuery :=
  let loop :=
    fix loop (indexes : list Rest.index) (labels : list pyval) (params : dict)
      {struct indexes} : result dict :=
      match indexes, labels with
      | idx :: indexes', label :: labels' =>
          query <- compile_query self idx label ;;
          name <- index_name idx ;;
          loop indexes' labels' (merge_own params name query)
      | _, _ => Ok params
      end in
  match index with
  | Index name | InterpolatingIndex name =>
      Ok {| client := self.(source); params := [(name, label)] |}
  | IntervalIndex name =>
      interval <- serializable_interval label ;;
      Ok {| client := self.(source); params := [(name, interval)] |}
  | MultiIndex _ indexes =>
      labels <- values label ;;
      params <- loop indexes labels [] ;;
      Ok {| client := self.(source); params := params |}
  | IndexSeq indexes =>
      labels <- py_iter label ;;
      params <- loop indexes labels [] ;;
      Ok {| client := self.(source); params := params |}
  | OtherIndex _ => Raise NotImplementedError
  end.

(** The loop of [multi_query] on its own: [for idx, label in zip(indexes, labels)]. *)
Definition multi_query_loop (self : RestInterface)
  : list index -> list pyval -> dict -> result dict :=
  fix loop (indexes : list index) (labels : list pyval) (params : dict)
    {struct indexes} : result dict :=
    match indexes, labels with
    | idx :: indexes', label :: labels' =>
        query <- compile_query self idx label ;;
        name <- index_name idx ;;
        loop indexes' labels' (merge_own params name query)
    | _, _ => Ok params
    end.

End Rest.

Import Rest.

(** ** rframe/rframe.py *)

(** What [rframe.py] imports and calls but does not define: the schema
    class (a pydantic model bound to a datastore) and pandas.  [DB] is
    the state of the datastore behind [self.db]. *)
Class Schema : Type := {
  DB : Type;
  DataFrame : Type;
  (** [self.schema.__name__] *)
  schema_name : string;
  (** [self.index.names], the index fields in declared order *)
  index_names : list string;
  (** [self.columns], [list(self.schema.get_column_fields())] *)
  columns : list string;
  (** [self.schema] called with the keywords [kwargs] *)
  schema_call : dict -> result pyval;
  (** [doc.save(self.db)] *)
  save : pyval -> DB -> result pyval * DB;
  (** [self.schema.find] on [self.db] with the keywords [labels] *)
  find : DB -> dict -> result (list pyval);
  (** [doc.pandas_dict()] *)
  pandas_dict : pyval -> result dict;
  (** [self.schema.from_pandas(records)] *)
  from_pandas : DataFrame -> result (list pyval);
  (** [pd.json_normalize(docs)], sorted and indexed by the index fields *)
  to_frame : list dict -> result DataFrame;
  (** [df[columns]] *)
  df_getitem : DataFrame -> pyval -> result DataFrame
}.



(** Reading a local variable: a name not yet assigned in the running
    call raises [UnboundLocalError]. *)
Definition load_local (var : string) (v : option pyval) : result pyval :=
  match v with
  | Some x => Ok x
  | None => Raise (UnboundLocalError var)
  end.

(** [isinstance] called with three arguments. *)
Definition isinstance3 {A B C : Type} (_ : A) (_ : B) (_ : C) : result bool :=
  Raise (TypeError "isinstance expected 2 arguments, got 3").

(** [f] called with the keywords unpacked from [record] *)
Definition call_kw {A : Type} (f : dict -> result A) (record : pyval) : result A :=
  match record with
  | PDict d => f d
  | _ => Raise (TypeError "argument after ** must be a mapping")
  end.

Module RemoteFrame.
Section WithSchema.
Context `{S : Schema}.

Definition sel_records (args : list pyval) (kwargs : dict) (db : DB)
  : result (list dict) :=
  let index_fields := index_names in
  let labels := dict_of_pairs (combine index_fields args) in
  let labels := dict_update labels kwargs in
  docs <- find db labels ;;
  map_result pandas_dict docs.

Definition sel_record (args : list pyval) (kwargs : dict) (db : DB)
  : result dict :=
  records <- sel_records args kwargs db ;;
  match records with
  | r :: _ => Ok r
  | [] => Raise (KeyError Msg_no_records)
  end.

Definition sel (args : list pyval) (kwargs : dict) (db : DB)
  : result DataFrame :=
  docs <- sel_records args kwargs db ;;
  to_frame docs.

(** The record [set] builds: [kwargs] after [kwargs.update(labels)]. *)
Definition set_record (args : list pyval) (kwargs : dict) : dict :=
  let labels := dict_of_pairs (combine index_names args) in
  dict_update kwargs labels.

Definition set (args : list pyval) (kwargs : dict) (db : DB)
  : result pyval * DB :=
  let kwargs := set_record args kwargs in
  match schema_call kwargs with
  | Ok doc => save doc db
  | Raise e => (Raise e, db)
  end.

(** The loop of [concat].  [doc] is the local variable of that name:
    [None] until its first assignment. *)
Fixpoint concat_loop (records : list pyval) (doc : option pyval)
  (succeeded failed : list pyval) (errors : list string) (db : DB)
  : result (list pyval * list pyval * list string) * DB :=
  match records with
  | [] => (Ok (succeeded, failed, errors), db)
  | record :: records' =>
      match (d <- load_local "doc" doc ;;
             b <- isinstance3 d S schema_name ;;
             if negb b then call_kw schema_call record else Ok d) with
      | Raise e => (Raise e, db)
      | Ok doc' =>
          match save doc' db with
          | (Ok _, db') =>
              concat_loop records' (Some doc')
                (succeeded ++ [doc']) failed errors db'
          | (Raise (InsertionError e), db') =>
              concat_loop records' (Some doc')
                succeeded (failed ++ [doc']) (errors ++ [e]) db'
          | (Raise e, db') => (Raise e, db')
          end
      end
  end.

(** The argument of [concat]: a data frame or a list of records. *)
Inductive records_arg : Type :=
| RecordsFrame (df : DataFrame)
| RecordsList (records : list pyval).

Definition concat (records : records_arg) (db : DB)
  : result (list pyval * list pyval * list string) * DB :=
  match (match records with
         | RecordsFrame df => from_pandas df
         | RecordsList l => Ok l
         end) with
  | Raise e => (Raise e, db)
  | Ok records => concat_loop records None [] [] [] db
  end.

End WithSchema.
End RemoteFrame.

Module RemoteSeries.
Section WithSchema.
Context `{S : Schema}.

(** A series is the frame it views ([self.obj], here the schema in
    context) and its [column]. *)

Definition getitem (column : string) (index : pyval) (db : DB)
  : result DataFrame :=
  let index := as_tuple index in
  df <- RemoteFrame.sel index [] db ;;
  df_getitem df (PStr column).

Definition sel (column : string) (args : list pyval) (kwargs : dict) (db : DB)
  : result DataFrame :=
  df <- RemoteFrame.sel args kwargs db ;;
  df_getitem df (PStr column).

Definition sel_values (column : string) (args : list pyval) (kwargs : dict)
  (db : DB) : result (list pyval) :=
  docs <- RemoteFrame.sel_records args kwargs db ;;
  map_result (fun doc => dict_getitem doc column) docs.

Definition sel_value (column : string) (args : list pyval) (kwargs : dict)
  (db : DB) : result pyval :=
  values <- sel_values column args kwargs db ;;
  match values with
  | v :: _ => Ok v
  | [] => Raise (KeyError Msg_no_values)
  end.

Definition set (column : string) (args : list pyval) (kwargs : dict) (db : DB)
  : result pyval * DB :=
  (Raise (InsertionError
     "Cannot set values on a RemoteSeries object,use the RemoteDataFrame."),
   db).

End WithSchema.
End RemoteSeries.

(** What [RemoteFrame.__getitem__] returns: a series, or the frame a
    series was subscripted to. *)
Inductive frame_item `{S : Schema} : Type :=
| Series (column : string)
| Frame (df : DataFrame).

(** [RemoteFrame.__getitem__] *)
Definition frame_getitem `{S : Schema} (index : pyval) (db : DB)
  : result frame_item :=
  match index with
  | PStr s =>
      if py_in index columns then Ok (Series s)
      else Raise (KeyError (Msg_not_a_column index))
  | PTuple [] => Raise (IndexError "tuple index out of range")
  | PTuple (PStr s :: rest) =>
      if py_in (PStr s) columns then
        df <- RemoteSeries.getitem s (PTuple rest) db ;;
        Ok (Frame df)
      else Raise (KeyError (Msg_not_a_column index))
  | _ => Raise (KeyError (Msg_not_a_column index))
  end.

Module LocIndexer.
Section WithSchema.
Context `{S : Schema}.

(** [__call__] *)
Definition call (args : list pyval) (kwargs : dict) (db : DB)
  : result DataFrame :=
  RemoteFrame.sel args kwargs db.

(** [self.obj.columns] *)
Let obj_columns : list string := columns.

(** The first half of [__getitem__]: the subscript split into the index
    and [columns]; [columns] starts as [None] and stays so when nothing
    is split off. *)
Definition resolve (index : pyval) : pyval * pyval :=
  match index with
  | PTuple [index; columns] =>
      let columns :=
        match columns with PList l => l | _ => [columns] end in
      if negb (forallb (fun c => py_in c obj_columns) columns) then
        let index := as_tuple index in
        (PTuple (index ++ columns)%list, PNone)
      else (index, PList columns)
  | PTuple items =>
      if (List.length items =? List.length obj_columns + 1)%nat then
        (PTuple (removelast items), last items PNone)
      else (index, PNone)
  | _ => (index, PNone)
  end.

(** [__getitem__]: the frame is projected only [if columns is not
    None]. *)
Definition getitem (index : pyval) (db : DB) : result DataFrame :=
  let '(index, columns) := resolve index in
  let index := as_tuple index in
  df <- RemoteFrame.sel index [] db ;;
  match columns with
  | PNone => Ok df
  | _ => df_getitem df columns
  end.


End WithSchema.
End LocIndexer.

Module AtIndexer.
Section WithSchema.
Context `{S : Schema}.

(** [isinstance(idx, (slice, list, type(None)))] *)
Definition is_slice_list_none (idx : pyval) : bool :=
  match idx with
  | PSlice _ _ _ | PList _ | PNone => true
  | _ => false
  end.

(** [__getitem__].  The [KeyError] of the last test is built and
    dropped: the statement has no [raise]. *)
Definition getitem (key : pyval) (db : DB) : result pyval :=
  match key with
  | PTuple [index; column] =>
      if negb (py_in column columns) then
        Raise (KeyError (Msg_not_found column columns))
      else
        let index := as_tuple index in
        if existsb is_slice_list_none index then
          Raise (KeyError (Msg_not_unique_index index))
        else
          let _ :=
            if (List.length index <? List.length index_names)%nat
            then Some (KeyError (Msg_under_defined_index index))
            else None in
          item <- frame_getitem column db ;;
          match item with
          | Series c => RemoteSeries.sel_value c index [] db
          | Frame _ => Raise (AttributeError "sel_value")
          end
  | _ => Raise (KeyError Msg_ill_defined_location)
  end.

End WithSchema.
End AtIndexer.

(** ** A datastore in memory

    The schema layer and the datastore are outside the two files; for
    runs on concrete inputs they are modelled from the specification. *)

Module Mem.

(** [doc.field] of a stored document. *)
Definition field (doc : pyval) (k : string) : option pyval :=
  match doc with
  | PObj _ attrs => dict_get attrs k
  | _ => None
  end.

Fixpoint pyval_eqb (a b : pyval) {struct a} : bool :=
  let fix all2 (xs ys : list pyval) {struct xs} : bool :=
    match xs, ys with
    | [], [] => true
    | x :: xs', y :: ys' => pyval_eqb x y && all2 xs' ys'
    | _, _ => false
    end in
  let fix all2d (xs ys : list (string * pyval)) {struct xs} : bool :=
    match xs, ys with
    | [], [] => true
    | (k, x) :: xs', (k', y) :: ys' =>
        String.eqb k k' && pyval_eqb x y && all2d xs' ys'
    | _, _ => false
    end in
  match a, b with
  | PNone, PNone => true
  | PInt x, PInt y => Z.eqb x y
  | PStr x, PStr y => String.eqb x y
  | PTuple xs, PTuple ys => all2 xs ys
  | PList xs, PList ys => all2 xs ys
  | PDict xs, PDict ys => all2d xs ys
  | PSlice a1 a2 a3, PSlice b1 b2 b3 =>
      pyval_eqb a1 b1 && pyval_eqb a2 b2 && pyval_eqb a3 b3
  | PObj c xs, PObj c' ys => String.eqb c c' && all2d xs ys
  | _, _ => false
  end.

(** Modelled from the spec: the datastore's query, absent from the
    sources ("positional labels bind to index fields in declared order;
    ... missing index fields are left unconstrained"; a value index has
    "exact-match semantics").  The documents kept are those that carry
    every label given. *)
Definition matches (labels : dict) (doc : pyval) : bool :=
  forallb (fun kv =>
             match field doc (fst kv) with
             | Some v => pyval_eqb v (snd kv)
             | None => false
             end) labels.

(** Modelled from the spec: the backend's write, absent from the sources
    ("insert(document) -> void | raises write error"; an
    [InsertionError] is "a single write failed (validation or backend
    rejection)").  [rejects] gives the error message of a document the
    store refuses; an accepted document is appended. *)
Definition insert (rejects : pyval -> option string) (doc : pyval)
  (db : list pyval) : result pyval * list pyval :=
  match rejects doc with
  | Some msg => (Raise (InsertionError msg), db)
  | None => (Ok doc, (db ++ [doc])%list)
  end.

(** Modelled from the spec: the schema class and pandas, absent from the
    sources.  An entity is an object of the schema's class with the
    record's fields; a data frame is the records it was built from and
    the column selection applied to it ("tabular presentation/sorting of
    results" is out of the specification's scope). *)
Definition schema (name : string) (index cols : list string)
  (rejects : pyval -> option string) : Schema :=
  {| DB := list pyval;
     DataFrame := list dict * option pyval;
     schema_name := name;
     index_names := index;
     columns := cols;
     schema_call := fun kwargs => Ok (PObj name kwargs);
     save := insert rejects;
     find := fun db labels => Ok (filter (matches labels) db);
     pandas_dict := fun doc =>
       match doc with
       | PObj _ attrs => Ok attrs
       | _ => Raise (AttributeError "pandas_dict")
       end;
     from_pandas := fun df => Ok (map PDict (fst df));
     to_frame := fun docs => Ok (docs, None);
     df_getitem := fun df c => Ok (fst df, Some c) |}.

End Mem.

(** ** The shapes of interval labels

    The vocabulary of the specification's statements about
    [serializable_interval], read off the branches of the function. *)

Inductive interval_kind : Type :=
| Pair | LabeledPair | HalfOpenRange | BoundObject | Scalar.

(** The kind of an interval-like input; [None] for a list and for a value
    that is none of the five. *)
Definition kind_of (x : pyval) : option interval_kind :=
  match x with
  | PList _ => None
  | PTuple [_; _] => Some Pair
  | PTuple _ => None
  | PDict d =>
      if dict_contains d "left" && dict_contains d "right"
      then Some LabeledPair else None
  | PSlice _ _ _ => Some HalfOpenRange
  | _ =>
      if hasattr x "left" && hasattr x "right"
      then Some BoundObject else Some Scalar
  end.

(** An input made of interval-like values, lists of them nested to any
    depth. *)
Fixpoint interval_input (x : pyval) : bool :=
  match x with
  | PList items => forallb interval_input items
  | _ => match kind_of x with Some _ => true | None => false end
  end.

(** A canonical form, or a list of them nested to any depth. *)
Fixpoint canonical_forms (v : pyval) : bool :=
  match v with
  | PList items => forallb canonical_forms items
  | PDict [(k1, _); (k2, _)] => String.eqb k1 "left" && String.eqb k2 "right"
  | _ => false
  end.

(** ** The rest of [rest.py] and [rframe.py] *)

Module RestExecute.
Section WithClient.

(** [self.client.query], of the client class outside the sources. *)
Variable query : RestClient -> dict -> result pyval.

(** The keywords of a call that unpacks the mapping [kwargs] and then
    gives keywords explicitly: a keyword given both ways is a
    [TypeError], raised before the callee is entered. *)
Fixpoint call_keywords (kwargs : dict) (explicit : list (string * pyval))
  : result dict :=
  match explicit with
  | [] => Ok kwargs
  | (k, v) :: explicit' =>
      if dict_contains kwargs k then
        Raise (TypeError ("got multiple values for keyword argument " ++ k))
      else call_keywords (kwargs ++ [(k, v)])%list explicit'
  end.

(** [RestQuery.execute] *)
Definition execute (self : RestQuery) (limit skip : pyval) : result pyval :=
  kwargs <- call_keywords self.(params) [("limit", limit); ("skip", skip)] ;;
  query self.(client) kwargs.

End WithClient.
End RestExecute.

(** The descriptors [simple_query] and [interval_query] are registered
    for. *)
Definition is_simple (idx : index) : bool :=
  match idx with
  | Index _ | InterpolatingIndex _ | IntervalIndex _ => true
  | _ => false
  end.

(** The labels [sel_records] hands to [find]. *)
Definition query_labels `{S : Schema} (args : list pyval) (kwargs : dict)
  : dict :=
  dict_update (dict_of_pairs (combine index_names args)) kwargs.

(** [RemoteFrame.__call__]: [index.get(k, None)] for each index field,
    then [self.at[index, column]]. *)
Definition frame_call `{S : Schema} (column : pyval) (index : dict) (db : DB)
  : result pyval :=
  let index :=
    map (fun k => match dict_get index k with Some v => v | None => PNone end)
        index_names in
  AtIndexer.getitem (PTuple [PTuple index; column]) db.

(** [RemoteFrame.__getattr__] *)
Definition frame_getattr `{S : Schema} (name : string) (db : DB)
  : result frame_item :=
  if negb (String.eqb name "columns") && py_in (PStr name) columns then
    frame_getitem (PStr name) db
  else Raise (AttributeError name).

(** * Properties *)

(** ** Dicts *)

Lemma dict_get_set (d : dict) (k k' : string) (v : pyval) :
  dict_get (dict_set d k v) k' =
  if String.eqb k k' then Some v else dict_get d k'.
Proof.
  induction d as [|[k0 v0] d IH]; simpl.
  - reflexivity.
  - destruct (String.eqb_spec k0 k) as [->|Hne]; simpl.
    + destruct (String.eqb k k'); reflexivity.
    + rewrite IH.
      destruct (String.eqb_spec k0 k') as [->|Hne'].
      * destruct (String.eqb_spec k k'); [congruence | reflexivity].
      * reflexivity.
Qed.

Lemma dict_contains_get (d : dict) (k : string) :
  dict_contains d k = true <-> exists v, dict_get d k = Some v.
Proof.
  unfold dict_contains. destruct (dict_get d k).
  - split; eauto.
  - split; [discriminate | intros [v Hv]; discriminate].
Qed.

(** ** [serializable_interval] *)

(** Lists of values are the only place [serializable_interval] recurses:
    an induction principle with the hypothesis on the items of a list. *)
Lemma pyval_list_ind (P : pyval -> Prop) :
  (forall items, Forall P items -> P (PList items)) ->
  (forall v, (forall items, v <> PList items) -> P v) ->
  forall v, P v.
Proof.
  intros Hlist Hother. fix IH 1. intros v.
  destruct v; try (apply Hother; intros; discriminate).
  apply Hlist. revert items. fix IHl 1. intros [|x xs].
  - constructor.
  - constructor; [apply IH | apply IHl].
Qed.

(** On a list the function is the list comprehension over its items. *)
Lemma serializable_interval_list (items : list pyval) :
  serializable_interval (PList items) =
  (ivs <- map_result serializable_interval items ;; Ok (PList ivs)).
Proof.
  simpl. f_equal.
  induction items as [|x xs IH]; simpl; [reflexivity|].
  rewrite IH. reflexivity.
Qed.

Lemma serializable_interval_kind (x : pyval) (k : interval_kind) :
  kind_of x = Some k ->
  exists l r, serializable_interval x = Ok (canonical l r).
Proof.
  destruct x; simpl; intros Hk; try (eexists; eexists; reflexivity).
  - destruct items as [|a [|b [|c rest]]]; try discriminate.
    eexists; eexists; reflexivity.
  - discriminate.
  - unfold dict_contains, dict_getitem in *.
    destruct (dict_get entries "left"); [|discriminate].
    destruct (dict_get entries "right"); [|discriminate].
    eexists; eexists; reflexivity.
  - unfold dict_contains in *.
    destruct (dict_get attrs "left"); simpl; [|eexists; eexists; reflexivity].
    destruct (dict_get attrs "right"); simpl; eexists; eexists; reflexivity.
Qed.

Lemma map_result_ok_nth {A B : Type} (f : A -> result B) (xs : list A)
  (ys : list B) :
  map_result f xs = Ok ys ->
  List.length ys = List.length xs /\
  forall i x, nth_error xs i = Some x ->
    exists y, nth_error ys i = Some y /\ f x = Ok y.
Proof.
  revert ys. induction xs as [|x xs IH]; simpl; intros ys H.
  - injection H as <-. split; [reflexivity|]. intros [|i] x0 Hx; discriminate.
  - destruct (f x) as [y|e] eqn:Hf; simpl in H; [|discriminate].
    destruct (map_result f xs) as [ys'|e] eqn:Hm; simpl in H; [|discriminate].
    injection H as <-. destruct (IH ys' eq_refl) as [Hlen Hnth].
    split; [simpl; congruence|].
    intros [|i] x0 Hx; simpl in *.
    + injection Hx as <-. eauto.
    + apply Hnth. exact Hx.
Qed.

Lemma interval_input_other (v : pyval) :
  (forall items, v <> PList items) ->
  interval_input v = match kind_of v with Some _ => true | None => false end.
Proof.
  intros Hv. destruct v; try reflexivity.
  exfalso. eapply Hv. reflexivity.
Qed.

Lemma interval_input_ok (x : pyval) :
  interval_input x = true ->
  exists v, serializable_interval x = Ok v /\ canonical_forms v = true.
Proof.
  induction x as [items IH | v Hv] using pyval_list_ind.
  - intros Hin. rewrite serializable_interval_list. simpl in Hin.
    assert (exists ivs, map_result serializable_interval items = Ok ivs /\
                        forallb canonical_forms ivs = true) as (ivs & -> & Hc).
    { induction IH as [|x xs Hx _ IHxs]; simpl in *.
      - exists []. split; reflexivity.
      - apply andb_true_iff in Hin as [Hix Hixs].
        destruct (Hx Hix) as (v & -> & Hcv).
        destruct (IHxs Hixs) as (vs & -> & Hcvs).
        exists (v :: vs). simpl. rewrite Hcv, Hcvs. split; reflexivity. }
    exists (PList ivs). split; [reflexivity | exact Hc].
  - intros Hin. rewrite (interval_input_other v Hv) in Hin.
    destruct (kind_of v) as [k|] eqn:Hk; [|discriminate].
    destruct (serializable_interval_kind v k Hk) as (l & r & ->).
    exists (canonical l r). split; reflexivity.
Qed.

Lemma interval_input_raises (x : pyval) :
  interval_input x = false ->
  exists e, serializable_interval x = Raise e.
Proof.
  induction x as [items IH | v Hv] using pyval_list_ind.
  - intros Hin. rewrite serializable_interval_list. simpl in Hin.
    assert (exists e, map_result serializable_interval items = Raise e)
      as (e & ->); [|exists e; reflexivity].
    induction IH as [|x xs Hx _ IHxs]; simpl in *; [discriminate|].
    destruct (interval_input x) eqn:Hix; simpl in Hin.
    + destruct (interval_input_ok x Hix) as (v & -> & _). simpl.
      destruct (IHxs Hin) as (e & ->). exists e. reflexivity.
    + destruct (Hx eq_refl) as (e & ->). exists e. reflexivity.
  - intros Hin. rewrite (interval_input_other v Hv) in Hin.
    destruct v; simpl in Hin; try discriminate.
    + destruct items as [|a [|b [|c rest]]]; try discriminate;
        simpl; eexists; reflexivity.
    + exfalso. eapply Hv. reflexivity.
    + simpl. unfold dict_contains, dict_getitem in *.
      destruct (dict_get entries "left"); simpl in *.
      * destruct (dict_get entries "right"); [discriminate|].
        eexists; reflexivity.
      * eexists; reflexivity.
    + unfold dict_contains in Hin.
      destruct (dict_get attrs "left"); [|discriminate].
      destruct (dict_get attrs "right"); discriminate.
Qed.

(** A canonical form, or a list of canonical forms, is a fixed point. *)
Lemma canonical_forms_fixed (v : pyval) :
  canonical_forms v = true -> serializable_interval v = Ok v.
Proof.
  induction v as [items IH | v Hv] using pyval_list_ind.
  - intros Hc. rewrite serializable_interval_list. simpl in Hc.
    assert (map_result serializable_interval items = Ok items) as ->;
      [|reflexivity].
    induction IH as [|x xs Hx _ IHxs]; simpl in *; [reflexivity|].
    apply andb_true_iff in Hc as [Hcx Hcxs].
    rewrite (Hx Hcx), (IHxs Hcxs). reflexivity.
  - intros Hc. destruct v; simpl in Hc; try discriminate.
    + exfalso. eapply Hv. reflexivity.
    + destruct entries as [|[k1 a] [|[k2 b] [|]]]; try discriminate.
      apply andb_true_iff in Hc as [H1 H2].
      apply String.eqb_eq in H1, H2. subst. reflexivity.
Qed.

(** Closes the clauses of a statement by kinds once the bounds are
    chosen: a clause about another kind has a false premise. *)
Ltac finish_kind Hfix :=
  repeat (split || intros);
  try discriminate; try congruence; try reflexivity; try apply Hfix.

(** C5 (as stated, refuted).  A pair whose two bounds are equal is
    normalized to a form with [left = right] although the input is not a
    bare scalar: "left equals right exactly when the input was a bare
    scalar" fails at the pair [(3, 3)]. *)
Lemma equal_bounds_not_only_scalar :
  ~ (forall x k l r,
       kind_of x = Some k ->
       serializable_interval x = Ok (canonical l r) ->
       (l = r <-> k = Scalar)).
Proof.
  intros H.
  destruct (H (PTuple [PInt 3; PInt 3]) Pair (PInt 3) (PInt 3)
              eq_refl eq_refl) as [Hlr _].
  specialize (Hlr eq_refl). discriminate.
Qed.

(** C5 (amended).  For every interval-like input (pair, labeled pair,
    half-open range, bound object, scalar) [serializable_interval]
    returns a canonical [{left, right}] form; for a bare scalar both
    [left] and [right] are the input itself, and for the other four kinds
    they are the input's own two bounds (which may be equal too); applied
    to the canonical form it returns that form unchanged. *)
Theorem serializable_interval_canonical (x : pyval) (k : interval_kind) :
  kind_of x = Some k ->
  exists l r,
    serializable_interval x = Ok (canonical l r) /\
    (k = Scalar -> l = x /\ r = x) /\
    (forall a b, x = PTuple [a; b] -> l = a /\ r = b) /\
    (forall d, x = PDict d ->
       dict_get d "left" = Some l /\ dict_get d "right" = Some r) /\
    (forall a b c, x = PSlice a b c -> l = a /\ r = b) /\
    (k = BoundObject -> getattr x "left" = Ok l /\ getattr x "right" = Ok r) /\
    serializable_interval (canonical l r) = Ok (canonical l r).
Proof.
  intros Hk.
  assert (Hfix : forall l r,
             serializable_interval (canonical l r) = Ok (canonical l r))
    by (intros; apply canonical_forms_fixed; reflexivity).
  destruct x; simpl in Hk.
  - injection Hk as <-. exists PNone, PNone. finish_kind Hfix.
  - injection Hk as <-. exists (PInt z), (PInt z). finish_kind Hfix.
  - injection Hk as <-. exists (PStr s), (PStr s). finish_kind Hfix.
  - destruct items as [|a [|b [|c rest]]]; try discriminate.
    injection Hk as <-. exists a, b. finish_kind Hfix.
  - discriminate.
  - unfold dict_contains in Hk.
    destruct (dict_get entries "left") as [l|] eqn:Hl; [|discriminate].
    destruct (dict_get entries "right") as [r|] eqn:Hr; [|discriminate].
    injection Hk as <-. exists l, r. simpl. unfold dict_getitem.
    rewrite Hl, Hr. simpl. finish_kind Hfix.
  - injection Hk as <-. exists x1, x2. finish_kind Hfix.
  - unfold dict_contains in Hk. simpl. unfold dict_contains.
    destruct (dict_get attrs "left") as [l|] eqn:Hl; simpl in *.
    + destruct (dict_get attrs "right") as [r|] eqn:Hr; simpl in *;
        injection Hk as <-.
      * exists l, r. finish_kind Hfix; simpl; rewrite ?Hl, ?Hr; reflexivity.
      * exists (PObj cls attrs), (PObj cls attrs). finish_kind Hfix.
    + injection Hk as <-. exists (PObj cls attrs), (PObj cls attrs).
      finish_kind Hfix.
Qed.

(** The pair [(0, 10)] is normalized to [{left: 0, right: 10}]. *)
Lemma serializable_interval_canonical_witness :
  kind_of (PTuple [PInt 0; PInt 10]) = Some Pair /\
  exists l r,
    serializable_interval (PTuple [PInt 0; PInt 10]) = Ok (canonical l r) /\
    l = PInt 0 /\ r = PInt 10.
Proof.
  split; [reflexivity|].
  destruct (serializable_interval_canonical
              (PTuple [PInt 0; PInt 10]) Pair eq_refl)
    as (l & r & Hn & _ & Hpair & _).
  exists l, r. split; [exact Hn | exact (Hpair _ _ eq_refl)].
Defined.

(** C6 (as stated, refuted).  Normalization has error cases: a tuple of
    three values cannot be unpacked into [left, right]. *)
Lemma serializable_interval_not_total :
  ~ (forall x, exists v, serializable_interval x = Ok v).
Proof.
  intros H. destruct (H (PTuple [PInt 1; PInt 2; PInt 3])) as [v Hv].
  discriminate.
Qed.

(** The exceptions of [serializable_interval] by name: the unpacking
    [left, right = interval] of a tuple that has not two items is a
    [ValueError], the lookup of a missing [left] or [right] key a
    [KeyError]; a list raises what its first failing item raises. *)
Lemma interval_input_raises_named (x : pyval) :
  interval_input x = false ->
  serializable_interval x =
    Raise (ValueError "too many values to unpack (expected 2)") \/
  serializable_interval x =
    Raise (ValueError "not enough values to unpack (expected 2)") \/
  serializable_interval x = Raise (KeyError (Msg_key "left")) \/
  serializable_interval x = Raise (KeyError (Msg_key "right")).
Proof.
  induction x as [items IH | v Hv] using pyval_list_ind.
  - intros Hin. rewrite serializable_interval_list. simpl in Hin.
    assert (map_result serializable_interval items =
              Raise (ValueError "too many values to unpack (expected 2)") \/
            map_result serializable_interval items =
              Raise (ValueError "not enough values to unpack (expected 2)") \/
            map_result serializable_interval items =
              Raise (KeyError (Msg_key "left")) \/
            map_result serializable_interval items =
              Raise (KeyError (Msg_key "right"))) as Hm.
    { induction IH as [|x xs Hx _ IHxs]; simpl in *; [discriminate|].
      destruct (interval_input x) eqn:Hix; simpl in Hin.
      - destruct (interval_input_ok x Hix) as (v & -> & _). simpl.
        destruct (IHxs Hin) as [-> | [-> | [-> | ->]]]; simpl; tauto.
      - destruct (Hx eq_refl) as [-> | [-> | [-> | ->]]]; simpl; tauto. }
    destruct Hm as [-> | [-> | [-> | ->]]]; simpl; tauto.
  - intros Hin. rewrite (interval_input_other v Hv) in Hin.
    destruct v; simpl in Hin; try discriminate.
    + destruct items as [|a [|b [|c rest]]]; try discriminate; simpl; tauto.
    + exfalso. eapply Hv. reflexivity.
    + simpl. unfold dict_contains, dict_getitem in *.
      destruct (dict_get entries "left"); simpl in *.
      * destruct (dict_get entries "right"); [discriminate|]. tauto.
      * tauto.
    + unfold dict_contains in Hin.
      destruct (dict_get attrs "left"); [|discriminate].
      destruct (dict_get attrs "right"); discriminate.
Qed.

Lemma map_result_first_error {A B : Type} (f : A -> result B)
  (pre : list A) (bad : A) (post : list A) (e : exn) :
  (forall p, In p pre -> exists v, f p = Ok v) ->
  f bad = Raise e ->
  map_result f (pre ++ bad :: post) = Raise e.
Proof.
  intros Hpre Hbad. induction pre as [|p pre IH]; simpl.
  - rewrite Hbad. reflexivity.
  - destruct (Hpre p (or_introl eq_refl)) as [v ->]. simpl.
    rewrite IH; [reflexivity|]. intros q Hq. apply Hpre. right. exact Hq.
Qed.

(** C6 (amended).  Interval normalization maps every input made of
    interval-like values to a canonical [{left, right}] form or, for a
    list of N values (any N, zero included), to the list of the N
    element-wise results in the same order.  Its error cases are exactly
    these: a tuple whose length is not 2 raises [ValueError] (from
    [left, right = interval]), a mapping without a [left] key raises
    [KeyError] for [left] and one with [left] but without [right] raises
    [KeyError] for [right], and a list raises the error of its first
    item that raises. *)
Theorem serializable_interval_total_on_interval_input (x : pyval) :
  (interval_input x = true ->
     exists v, serializable_interval x = Ok v /\ canonical_forms v = true) /\
  (interval_input x = false ->
     serializable_interval x =
       Raise (ValueError "too many values to unpack (expected 2)") \/
     serializable_interval x =
       Raise (ValueError "not enough values to unpack (expected 2)") \/
     serializable_interval x = Raise (KeyError (Msg_key "left")) \/
     serializable_interval x = Raise (KeyError (Msg_key "right"))) /\
  (forall items, x = PTuple items ->
     (List.length items < 2 ->
      serializable_interval x =
        Raise (ValueError "not enough values to unpack (expected 2)")) /\
     (2 < List.length items ->
      serializable_interval x =
        Raise (ValueError "too many values to unpack (expected 2)"))) /\
  (forall d, x = PDict d ->
     (dict_get d "left" = None ->
      serializable_interval x = Raise (KeyError (Msg_key "left"))) /\
     (dict_get d "left" <> None -> dict_get d "right" = None ->
      serializable_interval x = Raise (KeyError (Msg_key "right")))) /\
  (forall pre bad post e,
     x = PList (pre ++ bad :: post) ->
     forallb interval_input pre = true ->
     serializable_interval bad = Raise e ->
     serializable_interval x = Raise e) /\
  (forall items, x = PList items -> interval_input x = true ->
     exists ivs,
       serializable_interval x = Ok (PList ivs) /\
       List.length ivs = List.length items /\
       forall i iv, nth_error items i = Some iv ->
         exists v, nth_error ivs i = Some v /\
                   serializable_interval iv = Ok v).
Proof.
  split; [apply interval_input_ok|].
  split; [apply interval_input_raises_named|].
  split.
  { intros items ->. split; intros Hlen.
    - destruct items as [|a [|b rest]]; simpl in *; try reflexivity; lia.
    - destruct items as [|a [|b [|c rest]]]; simpl in *; try reflexivity; lia. }
  split.
  { intros d ->. simpl. unfold dict_getitem. split.
    - intros ->. reflexivity.
    - intros Hl Hr. destruct (dict_get d "left"); [|congruence].
      simpl. rewrite Hr. reflexivity. }
  split.
  { intros pre bad post e -> Hpre Hbad. rewrite serializable_interval_list.
    rewrite (map_result_first_error serializable_interval pre bad post e);
      [reflexivity | | exact Hbad].
    intros p Hp. rewrite forallb_forall in Hpre.
    destruct (interval_input_ok p (Hpre p Hp)) as (v & Hv & _).
    exists v. exact Hv. }
  intros items -> Hin.
  destruct (interval_input_ok _ Hin) as (v & Hv & _).
  rewrite serializable_interval_list in Hv |- *.
  destruct (map_result serializable_interval items) as [ivs|e] eqn:Hm;
    simpl in Hv; [|discriminate].
  exists ivs. split; [reflexivity|].
  apply map_result_ok_nth. exact Hm.
Qed.

(** A list of a scalar and a pair gives a list of two forms; a triple
    raises [ValueError], a mapping with [left] only [KeyError] for
    [right], and a list raises what its first bad item raises. *)
Lemma serializable_interval_total_on_interval_input_witness :
  (exists ivs,
     serializable_interval (PList [PInt 1; PTuple [PInt 2; PInt 3]]) =
       Ok (PList ivs) /\
     List.length ivs = 2) /\
  serializable_interval (PTuple [PInt 1; PInt 2; PInt 3]) =
    Raise (ValueError "too many values to unpack (expected 2)") /\
  serializable_interval (PDict [("left", PInt 1)]) =
    Raise (KeyError (Msg_key "right")) /\
  serializable_interval
    (PList [PInt 1; PDict [("right", PInt 2)]; PTuple []]) =
    Raise (KeyError (Msg_key "left")).
Proof.
  split; [|split; [|split]].
  - destruct (serializable_interval_total_on_interval_input
                (PList [PInt 1; PTuple [PInt 2; PInt 3]]))
      as (_ & _ & _ & _ & _ & Hseq).
    destruct (Hseq _ eq_refl eq_refl) as (ivs & Hn & Hlen & _).
    exists ivs. split; [exact Hn | exact Hlen].
  - destruct (serializable_interval_total_on_interval_input
                (PTuple [PInt 1; PInt 2; PInt 3]))
      as (_ & _ & Htuple & _).
    apply (Htuple _ eq_refl). simpl. lia.
  - destruct (serializable_interval_total_on_interval_input
                (PDict [("left", PInt 1)]))
      as (_ & _ & _ & Hdict & _).
    apply (Hdict _ eq_refl); [discriminate | reflexivity].
  - destruct (serializable_interval_total_on_interval_input
                (PList [PInt 1; PDict [("right", PInt 2)]; PTuple []]))
      as (_ & _ & _ & _ & Hlist & _).
    apply (Hlist [PInt 1] (PDict [("right", PInt 2)]) [PTuple []]);
      reflexivity.
Defined.

(** ** [RestInterface.from_url] *)

Lemma prefix_app (p s : string) :
  String.prefix p s = true <-> exists rest, s = p ++ rest.
Proof.
  revert s. induction p as [|a p IH]; intros s.
  - destruct s; simpl; (split; [intros _; eexists; reflexivity | reflexivity]).
  - destruct s as [|b s]; simpl.
    + split; [discriminate | intros [rest H]; discriminate].
    + destruct (Ascii.ascii_dec a b) as [->|Hne].
      * rewrite IH. split; intros [rest H]; exists rest; congruence.
      * split; [discriminate | intros [rest H]; congruence].
Qed.

(** C8.  [from_url] builds the REST interface exactly for a URL that
    begins with [http://] or [https://]; for any other string it raises
    (the code's [NotImplementedError] is the failure the specification
    calls UnsupportedBackend), with no fallback. *)
Theorem from_url_scheme (url : string) (headers : pyval) :
  let recognized :=
    (exists rest, url = "http://" ++ rest) \/
    (exists rest, url = "https://" ++ rest) in
  (recognized ->
     from_url url headers =
     Ok {| source := {| Rest.url := url; Rest.headers := headers |} |}) /\
  (~ recognized -> from_url url headers = Raise NotImplementedError).
Proof.
  intros recognized. subst recognized. unfold from_url, startswith.
  destruct (String.prefix "http://" url) eqn:H1.
  - split; [reflexivity|]. intros Hn. exfalso. apply Hn. left.
    apply (proj1 (prefix_app _ _)). exact H1.
  - destruct (String.prefix "https://" url) eqn:H2.
    + split; [reflexivity|]. intros Hn. exfalso. apply Hn. right.
      apply (proj1 (prefix_app _ _)). exact H2.
    + split; [|reflexivity].
      intros [H|H]; apply (proj2 (prefix_app _ _)) in H; congruence.
Qed.

(** [https://host] is accepted, [ftp://host] is not. *)
Lemma from_url_scheme_witness :
  from_url "https://host" PNone =
    Ok {| source := {| Rest.url := "https://host"; Rest.headers := PNone |} |} /\
  from_url "ftp://host" PNone = Raise NotImplementedError.
Proof.
  split.
  - apply (from_url_scheme "https://host" PNone).
    right. exists "host". reflexivity.
  - apply (from_url_scheme "ftp://host" PNone).
    intros [[rest H]|[rest H]]; discriminate.
Defined.

(** ** [RestInterface.multi_query] *)

Lemma compile_query_seq (self : RestInterface) (indexes : list index)
  (label : pyval) :
  compile_query self (IndexSeq indexes) label =
  (labels <- py_iter label ;;
   params <- multi_query_loop self indexes labels [] ;;
   Ok {| client := self.(source); params := params |}).
Proof. reflexivity. Qed.

Lemma compile_query_multi (self : RestInterface) (name : string)
  (indexes : list index) (label : pyval) :
  compile_query self (MultiIndex name indexes) label =
  (labels <- values label ;;
   params <- multi_query_loop self indexes labels [] ;;
   Ok {| client := self.(source); params := params |}).
Proof. reflexivity. Qed.








(** ** Dict update *)

Lemma dict_get_app_last (d : dict) (k0 k : string) (v0 : pyval) :
  dict_get (d ++ [(k0, v0)])%list k =
  match dict_get d k with
  | Some v => Some v
  | None => if String.eqb k0 k then Some v0 else None
  end.
Proof.
  induction d as [|[k1 v1] d IH]; simpl; [reflexivity|].
  destruct (String.eqb k1 k); [reflexivity | exact IH].
Qed.

(** After [d.update(other)] a key has the last value [other] gives it,
    and its value in [d] when [other] has none. *)
Lemma dict_get_update (other : list (string * pyval)) :
  forall (d : dict) (k : string),
    dict_get (dict_update d other) k =
    match dict_get (rev other) k with
    | Some v => Some v
    | None => dict_get d k
    end.
Proof.
  unfold dict_update.
  induction other as [|[k0 v0] other IH]; intros d k; simpl; [reflexivity|].
  rewrite IH, dict_get_app_last, dict_get_set.
  destruct (dict_get (rev other) k); [reflexivity|].
  destruct (String.eqb k0 k); reflexivity.
Qed.

Lemma dict_get_In (d : dict) (k : string) (v : pyval) :
  dict_get d k = Some v -> In (k, v) d.
Proof.
  induction d as [|[k0 v0] d IH]; simpl; [discriminate|].
  destruct (String.eqb_spec k0 k) as [->|Hne].
  - intros H. injection H as ->. left. reflexivity.
  - intros H. right. apply IH. exact H.
Qed.

(** A key bound in only one way is looked up to that value. *)
Lemma In_dict_get (d : dict) (k : string) (v : pyval) :
  In (k, v) d ->
  (forall v', In (k, v') d -> v' = v) ->
  dict_get d k = Some v.
Proof.
  induction d as [|[k0 v0] d IH]; simpl; [contradiction|].
  intros Hin Hfun.
  destruct (String.eqb_spec k0 k) as [->|Hne].
  - f_equal. apply Hfun. left. reflexivity.
  - destruct Hin as [Heq|Hin]; [congruence|].
    apply IH; [exact Hin|]. intros v' Hv'. apply Hfun. right. exact Hv'.
Qed.

Lemma not_In_dict_get (d : dict) (k : string) :
  (forall v, ~ In (k, v) d) -> dict_get d k = None.
Proof.
  intros Hnot. destruct (dict_get d k) as [v|] eqn:Hk; [|reflexivity].
  exfalso. apply (Hnot v). apply dict_get_In. exact Hk.
Qed.

(** [zip] of distinct names binds each name once. *)
Lemma combine_NoDup_functional {A : Type} (names : list string) :
  forall (args : list A) (k : string) (v v' : A),
    NoDup names ->
    In (k, v) (combine names args) -> In (k, v') (combine names args) ->
    v = v'.
Proof.
  induction names as [|n names IH]; intros args k v v' Hnd Hv Hv';
    [contradiction|].
  destruct args as [|a args]; [contradiction|].
  inversion Hnd as [|? ? Hnotin Hnd']; subst.
  destruct Hv as [Hv|Hv], Hv' as [Hv'|Hv'].
  - congruence.
  - injection Hv as <- <-. exfalso. apply Hnotin.
    eapply in_combine_l. exact Hv'.
  - injection Hv' as <- <-. exfalso. apply Hnotin.
    eapply in_combine_l. exact Hv.
  - eapply IH; eauto.
Qed.

Lemma nth_error_combine_In {A B : Type} (xs : list A) :
  forall (ys : list B) (i : nat) (x : A) (y : B),
    nth_error xs i = Some x -> nth_error ys i = Some y ->
    In (x, y) (combine xs ys).
Proof.
  induction xs as [|x0 xs IH]; intros ys i x y Hx Hy;
    [destruct i; discriminate|].
  destruct ys as [|y0 ys]; [destruct i; discriminate|].
  destruct i as [|i]; simpl in *.
  - injection Hx as ->. injection Hy as ->. left. reflexivity.
  - right. eapply IH; eauto.
Qed.

(** The dict comprehension over [zip(names, args)]: the label bound to a
    name is the last one zipped with it. *)
Lemma dict_get_of_pairs (pairs : list (string * pyval)) (k : string) :
  dict_get (dict_of_pairs pairs) k = dict_get (rev pairs) k.
Proof.
  unfold dict_of_pairs. rewrite dict_get_update.
  destruct (dict_get (rev pairs) k); reflexivity.
Qed.

Lemma dict_set_keys_NoDup (d : dict) (k : string) (v : pyval) :
  NoDup (dict_keys d) -> NoDup (dict_keys (dict_set d k v)).
Proof.
  unfold dict_keys.
  assert (Hin : forall d k', In k' (map fst (dict_set d k v)) ->
                             k' = k \/ In k' (map fst d)).
  { clear d. induction d as [|[k0 v0] d IH]; simpl; intros k' H.
    - destruct H as [H|[]]. left. congruence.
    - destruct (String.eqb_spec k0 k) as [->|Hne]; simpl in H.
      + right. exact H.
      + destruct H as [H|H]; [right; left; exact H|].
        destruct (IH _ H) as [H'|H']; [left | right; right]; exact H'. }
  induction d as [|[k0 v0] d IH]; simpl; intros Hnd.
  - constructor; [intros [] | constructor].
  - inversion Hnd as [|? ? Hnotin Hnd']; subst.
    destruct (String.eqb_spec k0 k) as [->|Hne]; simpl.
    + constructor; assumption.
    + constructor; [|apply IH; exact Hnd'].
      intros H. destruct (Hin _ _ H) as [H'|H']; [congruence | auto].
Qed.

Lemma dict_update_keys_NoDup (other : list (string * pyval)) :
  forall d, NoDup (dict_keys d) -> NoDup (dict_keys (dict_update d other)).
Proof.
  unfold dict_update.
  induction other as [|[k v] other IH]; intros d Hnd; simpl; [exact Hnd|].
  apply IH. apply dict_set_keys_NoDup. exact Hnd.
Qed.

(** With distinct keys the order of the entries does not matter to a
    lookup. *)
Lemma dict_get_rev (d : dict) (k : string) :
  NoDup (dict_keys d) -> dict_get (rev d) k = dict_get d k.
Proof.
  intros Hnd.
  assert (Hfun : forall v v', In (k, v) d -> In (k, v') d -> v = v').
  { clear -Hnd. unfold dict_keys in Hnd.
    induction d as [|[k0 v0] d IH]; simpl; intros v v' Hv Hv'; [contradiction|].
    inversion Hnd as [|? ? Hnotin Hnd']; subst.
    destruct Hv as [Hv|Hv], Hv' as [Hv'|Hv'].
    - congruence.
    - injection Hv as <- <-. exfalso. apply Hnotin.
      apply (in_map fst) in Hv'. exact Hv'.
    - injection Hv' as <- <-. exfalso. apply Hnotin.
      apply (in_map fst) in Hv. exact Hv.
    - eapply IH; eauto. }
  destruct (dict_get d k) as [v|] eqn:Hk.
  - apply In_dict_get.
    + apply -> in_rev. apply dict_get_In. exact Hk.
    + intros v' Hv'. apply in_rev in Hv'. symmetry.
      eapply Hfun; [apply dict_get_In; exact Hk | exact Hv'].
  - apply not_In_dict_get. intros v Hv. apply in_rev in Hv.
    rewrite (In_dict_get d k v Hv) in Hk; [discriminate|].
    intros v' Hv'. eapply Hfun; eauto.
Qed.

(** ** [RemoteFrame.set] *)

Lemma set_record_get `{S : Schema} (args : list pyval) (kwargs : dict)
  (k : string) :
  dict_get (RemoteFrame.set_record args kwargs) k =
  match dict_get (rev (combine index_names args)) k with
  | Some lbl => Some lbl
  | None => dict_get kwargs k
  end.
Proof.
  unfold RemoteFrame.set_record.
  rewrite dict_get_update, dict_get_rev, dict_get_of_pairs; [reflexivity|].
  apply dict_update_keys_NoDup. constructor.
Qed.

(** C2 (as stated, refuted).  With the index field [a] given both
    positionally (1) and by name (2), the document [set] stores has
    [a = 1]: the positional label, not the named one. *)
Lemma set_stores_positional_over_named :
  let S := Mem.schema "thing" ["a"] ["col"] (fun _ => None) in
  exists doc,
    @RemoteFrame.set S [PInt 1] [("a", PInt 2); ("col", PInt 9)] [] =
      (Ok doc, [doc]) /\
    Mem.field doc "a" = Some (PInt 1) /\
    Mem.field doc "a" <> Some (PInt 2).
Proof.
  exists (PObj "thing" [("a", PInt 1); ("col", PInt 9)]).
  split; [reflexivity|]. split; [reflexivity | discriminate].
Qed.

(** C2 (amended).  [set] persists the entity built from the merge in
    which the positional labels, bound to the index fields in declared
    order, are primary and the named labels only supply the fields not
    bound positionally: a field given both positionally and by name is
    stored with the positional value. *)
Theorem set_positional_labels_primary `{S : Schema} (args : list pyval)
  (kwargs : dict) (db : DB) :
  let record := RemoteFrame.set_record args kwargs in
  RemoteFrame.set args kwargs db =
    match schema_call record with
    | Ok doc => save doc db
    | Raise e => (Raise e, db)
    end /\
  (forall k,
     dict_get record k =
     match dict_get (dict_of_pairs (combine index_names args)) k with
     | Some lbl => Some lbl
     | None => dict_get kwargs k
     end) /\
  (NoDup index_names ->
   forall i name lbl,
     nth_error index_names i = Some name -> nth_error args i = Some lbl ->
     dict_get record name = Some lbl) /\
  (forall k,
     (forall lbl, ~ In (k, lbl) (combine index_names args)) ->
     dict_get record k = dict_get kwargs k).
Proof.
  intros record. subst record.
  split; [reflexivity|].
  split; [intros k; rewrite set_record_get, dict_get_of_pairs; reflexivity|].
  split.
  - intros Hnd i name lbl Hname Hlbl. rewrite set_record_get.
    pose proof (nth_error_combine_In _ _ _ _ _ Hname Hlbl) as Hin.
    rewrite (In_dict_get _ name lbl); [reflexivity | |].
    + apply -> in_rev. exact Hin.
    + intros v' Hv'. apply in_rev in Hv'.
      eapply combine_NoDup_functional; eauto.
  - intros k Hnot. rewrite set_record_get.
    rewrite not_In_dict_get; [reflexivity|].
    intros v Hv. apply in_rev in Hv. exact (Hnot v Hv).
Qed.

(** [set(1, a=2)] keeps [a = 1]; [set(1, col=9)] keeps [col = 9]. *)
Lemma set_positional_labels_primary_witness :
  let S := Mem.schema "thing" ["a"] ["col"] (fun _ => None) in
  dict_get (@RemoteFrame.set_record S [PInt 1] [("a", PInt 2)]) "a" =
    Some (PInt 1) /\
  dict_get (@RemoteFrame.set_record S [PInt 1] [("col", PInt 9)]) "col" =
    Some (PInt 9).
Proof.
  intros S. split.
  - destruct (@set_positional_labels_primary S [PInt 1] [("a", PInt 2)] [])
      as (_ & _ & Hpos & _).
    apply (Hpos (NoDup_cons "a" (fun H : In "a" [] => H) (NoDup_nil _))
             0 "a" (PInt 1) eq_refl eq_refl).
  - destruct (@set_positional_labels_primary S [PInt 1] [("col", PInt 9)] [])
      as (_ & _ & _ & Hnamed).
    rewrite (Hnamed "col"); [reflexivity|].
    intros lbl [H|[]]. discriminate.
Defined.

(** ** [RemoteFrame.concat] *)

(** C1 (what the code does).  The first statement of the loop body reads
    the local variable [doc] before any assignment to it: on every batch
    with at least one record [concat] raises [UnboundLocalError], before
    any record is built or saved; nothing is returned and the datastore
    is as it was.  Only the empty batch returns (three empty lists). *)
Theorem concat_raises_on_first_record `{S : Schema} (record : pyval)
  (records : list pyval) (db : DB) :
  RemoteFrame.concat (RemoteFrame.RecordsList (record :: records)) db =
    (Raise (UnboundLocalError "doc"), db) /\
  RemoteFrame.concat (RemoteFrame.RecordsList []) db = (Ok ([], [], []), db).
Proof. split; reflexivity. Qed.

(** The batch of the specification's example: three records, the second
    refused by the datastore.  The specification expects
    [([r1, r3], [r2], [msg2])]. *)
Example concat_three_records :
  let rejects := fun doc =>
    match Mem.field doc "a" with
    | Some (PInt 2) => Some "msg2"
    | _ => None
    end in
  let S := Mem.schema "thing" ["a"] ["col"] rejects in
  @RemoteFrame.concat S
    (RemoteFrame.RecordsList
       [PDict [("a", PInt 1)]; PDict [("a", PInt 2)]; PDict [("a", PInt 3)]])
    [] =
  (Raise (UnboundLocalError "doc"), []).
Proof. reflexivity. Qed.

(** ** [RemoteSeries.set] *)

(** C9.  [set] on a series raises [InsertionError] whatever the
    arguments, and the datastore is not touched: the result does not
    depend on the schema's operations and the state is returned as it
    was. *)
Theorem series_set_raises `{S : Schema} (column : string) (args : list pyval)
  (kwargs : dict) (db : DB) :
  RemoteSeries.set column args kwargs db =
  (Raise (InsertionError
     "Cannot set values on a RemoteSeries object,use the RemoteDataFrame."),
   db).
Proof. reflexivity. Qed.

(** ** [LocIndexer] *)

Lemma bind_ret {A : Type} (c : result A) : (x <- c ;; Ok x) = c.
Proof. destruct c; reflexivity. Qed.



(** C7 (as stated, refuted).  On a frame with one column a subscript of
    two elements has the length "number of columns plus one", yet its
    last element is not split off as the column when it is no column:
    [loc[5, 7]] selects by the index [(5, 7)] and projects nothing. *)
Lemma loc_pair_on_one_column_frame_not_split :
  let S := Mem.schema "thing" ["a"; "b"] ["col"] (fun _ => None) in
  let db := [PObj "thing" [("a", PInt 5); ("b", PInt 7); ("col", PInt 42)]] in
  List.length [PInt 5; PInt 7] = List.length (@columns S) + 1 /\
  @LocIndexer.getitem S (PTuple [PInt 5; PInt 7]) db =
    @RemoteFrame.sel S [PInt 5; PInt 7] [] db /\
  @LocIndexer.getitem S (PTuple [PInt 5; PInt 7]) db <>
    (df <- @RemoteFrame.sel S [PInt 5] [] db ;; @df_getitem S df (PInt 7)).
Proof.
  intros S db. split; [reflexivity|]. split; [reflexivity|].
  vm_compute. discriminate.
Qed.

(** C7 (amended).  [loc(labels)] is [sel(labels)].  For a two-element
    subscript [(index_spec, column_spec)] the columns named by the second
    element (itself, or the names of the list it is) are checked against
    the frame's columns first: when all are columns, the frame selected
    by the first element is projected on them; when one is not, they
    become further index components and nothing is projected; this rule
    governs every two-element subscript, also on a frame with one
    column.  A tuple of any other length, when that length is the number
    of columns plus one, is split into its last element, the column, and
    the rest, the index, and the frame is projected unless that last
    element is [None].  Any other subscript is an index with no
    projection. *)
Theorem loc_getitem_resolution `{S : Schema} (db : DB) :
  (forall args kwargs,
     LocIndexer.call args kwargs db = RemoteFrame.sel args kwargs db) /\
  (forall index column_spec,
     let cols := match column_spec with PList l => l | _ => [column_spec] end in
     LocIndexer.getitem (PTuple [index; column_spec]) db =
     if forallb (fun c => py_in c columns) cols
     then (df <- RemoteFrame.sel (as_tuple index) [] db ;;
           df_getitem df (PList cols))
     else RemoteFrame.sel (as_tuple index ++ cols) [] db) /\
  (forall items,
     List.length items = List.length columns + 1 ->
     List.length items <> 2 ->
     last items PNone <> PNone ->
     LocIndexer.getitem (PTuple items) db =
     (df <- RemoteFrame.sel (removelast items) [] db ;;
      df_getitem df (last items PNone))) /\
  (forall items,
     List.length items = List.length columns + 1 ->
     List.length items <> 2 ->
     last items PNone = PNone ->
     LocIndexer.getitem (PTuple items) db =
     RemoteFrame.sel (removelast items) [] db) /\
  (forall index,
     (forall items, index = PTuple items ->
        List.length items <> 2 /\
        List.length items <> List.length columns + 1) ->
     LocIndexer.getitem index db = RemoteFrame.sel (as_tuple index) [] db).
Proof.
  assert (Hsplit : forall items,
             List.length items = List.length columns + 1 ->
             List.length items <> 2 ->
             LocIndexer.getitem (PTuple items) db =
             (df <- RemoteFrame.sel (removelast items) [] db ;;
              match last items PNone with
              | PNone => Ok df
              | _ => df_getitem df (last items PNone)
              end)).
  { intros items Hlen Hne. unfold LocIndexer.getitem, LocIndexer.resolve.
    apply Nat.eqb_eq in Hlen.
    destruct items as [|a [|b [|c rest]]];
      try (exfalso; apply Hne; reflexivity);
      rewrite Hlen; reflexivity. }
  split; [reflexivity|].
  split.
  { intros index column_spec cols. unfold LocIndexer.getitem, LocIndexer.resolve.
    fold cols.
    destruct (forallb (fun c => py_in c columns) cols); simpl.
    - reflexivity.
    - apply bind_ret. }
  split.
  { intros items Hlen Hne Hlast. rewrite (Hsplit items Hlen Hne).
    destruct (last items PNone); try reflexivity. congruence. }
  split.
  { intros items Hlen Hne Hlast. rewrite (Hsplit items Hlen Hne), Hlast.
    apply bind_ret. }
  intros index Hother. unfold LocIndexer.getitem, LocIndexer.resolve.
  destruct index; try apply bind_ret.
  destruct (Hother items eq_refl) as [Hne2 Hne].
  apply Nat.eqb_neq in Hne.
  destruct items as [|a [|b [|c rest]]];
    try (exfalso; apply Hne2; reflexivity);
    rewrite Hne; apply bind_ret.
Qed.

(** With two columns, [loc[5, 7, "c1"]] selects [(5, 7)] and projects on
    [c1]; [loc[5, 7, None]] selects [(5, 7)] and projects nothing;
    [loc[5]] selects [(5,)]. *)
Lemma loc_getitem_resolution_witness :
  let S := Mem.schema "thing" ["a"; "b"] ["c1"; "c2"] (fun _ => None) in
  @LocIndexer.getitem S (PTuple [PInt 5; PInt 7; PStr "c1"]) [] =
    (df <- @RemoteFrame.sel S [PInt 5; PInt 7] [] [] ;;
     @df_getitem S df (PStr "c1")) /\
  @LocIndexer.getitem S (PTuple [PInt 5; PInt 7; PNone]) [] =
    @RemoteFrame.sel S [PInt 5; PInt 7] [] [] /\
  @LocIndexer.getitem S (PInt 5) [] = @RemoteFrame.sel S [PInt 5] [] [].
Proof.
  intros S.
  destruct (@loc_getitem_resolution S [])
    as (_ & _ & Hsplit & Hnone & Hindex).
  split; [|split].
  - apply (Hsplit [PInt 5; PInt 7; PStr "c1"] eq_refl).
    + simpl. lia.
    + discriminate.
  - apply (Hnone [PInt 5; PInt 7; PNone] eq_refl).
    + simpl. lia.
    + reflexivity.
  - apply (Hindex (PInt 5)). intros items H. discriminate.
Defined.

(** ** [AtIndexer] *)

(** An unknown column is refused first, whatever the index is. *)
Lemma at_unknown_column `{S : Schema} (index column : pyval) (db : DB) :
  py_in column columns = false ->
  AtIndexer.getitem (PTuple [index; column]) db =
  Raise (KeyError (Msg_not_found column columns)).
Proof.
  intros Hcol. unfold AtIndexer.getitem. rewrite Hcol. reflexivity.
Qed.

(** With a known column, a slice, a list or [None] among the index
    components is refused. *)
Lemma at_non_scalar_index `{S : Schema} (index column : pyval) (db : DB) :
  py_in column columns = true ->
  existsb AtIndexer.is_slice_list_none (as_tuple index) = true ->
  AtIndexer.getitem (PTuple [index; column]) db =
  Raise (KeyError (Msg_not_unique_index (as_tuple index))).
Proof.
  intros Hcol Hns. unfold AtIndexer.getitem. rewrite Hcol, Hns. reflexivity.
Qed.

(** A key that is not a two-element tuple is refused. *)
Lemma at_not_a_pair `{S : Schema} (key : pyval) (db : DB) :
  (forall index column, key <> PTuple [index; column]) ->
  AtIndexer.getitem key db = Raise (KeyError Msg_ill_defined_location).
Proof.
  intros Hkey. unfold AtIndexer.getitem.
  destruct key; try reflexivity.
  destruct items as [|a [|b [|c rest]]]; try reflexivity.
  exfalso. eapply Hkey. reflexivity.
Qed.

(** With a known column and scalar components the lookup goes to
    [sel_value], however many components the index has: the test on the
    length of the index changes nothing. *)
Lemma at_scalar_index `{S : Schema} (index : pyval) (column : string)
  (db : DB) :
  py_in (PStr column) columns = true ->
  existsb AtIndexer.is_slice_list_none (as_tuple index) = false ->
  AtIndexer.getitem (PTuple [index; PStr column]) db =
  RemoteSeries.sel_value column (as_tuple index) [] db.
Proof.
  intros Hcol Hsc. unfold AtIndexer.getitem, frame_getitem.
  rewrite Hcol, Hsc. reflexivity.
Qed.

(** A lookup that finds no document raises "Selection returned no
    values." *)
Lemma at_empty_selection `{S : Schema} (index : pyval) (column : string)
  (db : DB) :
  py_in (PStr column) columns = true ->
  existsb AtIndexer.is_slice_list_none (as_tuple index) = false ->
  find db (dict_update (dict_of_pairs (combine index_names (as_tuple index))) [])
    = Ok [] ->
  AtIndexer.getitem (PTuple [index; PStr column]) db =
  Raise (KeyError Msg_no_values).
Proof.
  intros Hcol Hsc Hfind. rewrite at_scalar_index by assumption.
  unfold RemoteSeries.sel_value, RemoteSeries.sel_values,
    RemoteFrame.sel_records.
  rewrite Hfind. reflexivity.
Qed.

(** C3 (what the code does).  On a frame whose index has the two fields
    [a] and [b], the lookup [at[(5,), "col"]] gives one index component
    only.  The code builds the [KeyError] "... is an under defined
    index." without raising it, and returns the value of the first
    document with [a = 5]; a lookup with no match raises "Selection
    returned no values." instead. *)
Theorem at_under_defined_index_returns :
  let S := Mem.schema "thing" ["a"; "b"] ["col"] (fun _ => None) in
  let db := [PObj "thing" [("a", PInt 5); ("b", PInt 7); ("col", PInt 42)]] in
  @AtIndexer.getitem S (PTuple [PTuple [PInt 5]; PStr "col"]) db =
    Ok (PInt 42) /\
  @AtIndexer.getitem S (PTuple [PTuple [PInt 6]; PStr "col"]) db =
    Raise (KeyError Msg_no_values) /\
  @AtIndexer.getitem S (PTuple [PTuple []; PStr "col"]) db = Ok (PInt 42).
Proof. repeat split; reflexivity. Qed.

(** * Further properties of [rest.py] *)

(** X1.  [serializable_interval] is idempotent on every input it
    accepts, lists nested to any depth included: a result is returned
    unchanged when normalized again. *)
Theorem serializable_interval_idempotent (x v : pyval) :
  serializable_interval x = Ok v -> serializable_interval v = Ok v.
Proof.
  intros Hx. destruct (interval_input x) eqn:Hin.
  - destruct (interval_input_ok x Hin) as (v' & Hv' & Hc).
    rewrite Hx in Hv'. injection Hv' as <-.
    apply canonical_forms_fixed. exact Hc.
  - destruct (interval_input_raises x Hin) as (e & He). congruence.
Qed.

(** A list holding a scalar, a slice and a nested list. *)
Lemma serializable_interval_idempotent_witness :
  exists v,
    serializable_interval
      (PList [PInt 1; PSlice (PInt 2) (PInt 3) PNone; PList [PStr "x"]]) =
      Ok v /\
    serializable_interval v = Ok v.
Proof.
  eexists. split; [reflexivity|].
  apply (serializable_interval_idempotent
           (PList [PInt 1; PSlice (PInt 2) (PInt 3) PNone; PList [PStr "x"]])).
  reflexivity.
Defined.

Lemma dict_set_fresh (d : dict) (k : string) (v : pyval) :
  dict_get d k = None -> dict_set d k v = (d ++ [(k, v)])%list.
Proof.
  induction d as [|[k0 v0] d IH]; simpl; [reflexivity|].
  destruct (String.eqb k0 k); [discriminate|].
  intros H. rewrite (IH H). reflexivity.
Qed.

Lemma simple_compile (self : RestInterface) (idx : index) (label : pyval)
  (query : RestQuery) :
  is_simple idx = true ->
  compile_query self idx label = Ok query ->
  exists name v,
    index_name idx = Ok name /\ query.(params) = [(name, v)].
Proof.
  intros Hs Hq. destruct idx; try discriminate; simpl in Hq.
  - injection Hq as <-. eexists; eexists; split; reflexivity.
  - injection Hq as <-. eexists; eexists; split; reflexivity.
  - destruct (serializable_interval label); simpl in Hq; [|discriminate].
    injection Hq as <-. eexists; eexists; split; reflexivity.
Qed.

Lemma multi_query_loop_simple (self : RestInterface) (indexes : list index) :
  forall labels acc queries,
    forallb is_simple indexes = true ->
    NoDup (map index_name indexes) ->
    (forall idx name, In idx indexes -> index_name idx = Ok name ->
       dict_get acc name = None) ->
    map_result (fun p => compile_query self (fst p) (snd p))
      (combine indexes labels) = Ok queries ->
    multi_query_loop self indexes labels acc =
    Ok (acc ++ List.concat (map params queries))%list.
Proof.
  induction indexes as [|idx indexes IH]; intros labels acc queries Hs Hnd Hfresh Hq.
  - simpl in Hq. injection Hq as <-. simpl. rewrite app_nil_r. reflexivity.
  - destruct labels as [|label labels].
    + simpl in Hq. injection Hq as <-. simpl. rewrite app_nil_r. reflexivity.
    + simpl in Hs. apply andb_true_iff in Hs as [Hs1 Hs].
      simpl in Hq.
      destruct (compile_query self idx label) as [q|e] eqn:Hc;
        simpl in Hq; [|discriminate].
      destruct (map_result _ (combine indexes labels)) as [qs|e] eqn:Hm;
        simpl in Hq; [|discriminate].
      injection Hq as <-.
      destruct (simple_compile self idx label q Hs1 Hc) as (name & v & Hn & Hp).
      inversion Hnd as [|? ? Hnotin Hnd']; subst.
      cbn [multi_query_loop]. rewrite Hc, Hn. cbn [bind].
      unfold merge_own. rewrite Hp. cbn [dict_get]. rewrite String.eqb_refl.
      rewrite dict_set_fresh by (apply (Hfresh idx name); [left; reflexivity | exact Hn]).
      change (multi_query_loop self indexes labels (acc ++ [(name, v)])%list =
              Ok (acc ++ List.concat (map params (q :: qs)))%list).
      rewrite (IH labels (acc ++ [(name, v)])%list qs Hs Hnd'); [| |exact Hm].
      * simpl. rewrite Hp, <- app_assoc. reflexivity.
      * intros idx' name' Hin' Hn'. rewrite dict_get_app_last.
        rewrite (Hfresh idx' name') by (try (right; exact Hin'); exact Hn').
        destruct (String.eqb_spec name name') as [->|Hne]; [|reflexivity].
        exfalso. apply Hnotin. rewrite Hn, <- Hn'. apply in_map. exact Hin'.
Qed.

(** X2.  A composite of simple descriptors (value, interpolating,
    interval) with distinct names compiles to the parameters of its
    zipped children put one after the other in declared order: one
    parameter per child, nothing else. *)
Theorem flat_composite_concatenates (self : RestInterface)
  (indexes : list index) (labels : list pyval) (queries : list RestQuery) :
  forallb is_simple indexes = true ->
  NoDup (map index_name indexes) ->
  map_result (fun p => compile_query self (fst p) (snd p))
    (combine indexes labels) = Ok queries ->
  compile_query self (IndexSeq indexes) (PTuple labels) =
  Ok {| client := self.(source);
        params := List.concat (map params queries) |}.
Proof.
  intros Hs Hnd Hq. rewrite compile_query_seq. simpl.
  rewrite (multi_query_loop_simple self indexes labels [] queries Hs Hnd);
    [reflexivity | reflexivity | exact Hq].
Qed.

(** Three children, the last an interval given as a slice. *)
Lemma flat_composite_concatenates_witness :
  let self := {| source := {| url := "http://host"; headers := PNone |} |} in
  compile_query self
    (IndexSeq [Index "a"; InterpolatingIndex "t"; IntervalIndex "b"])
    (PTuple [PInt 5; PInt 7; PSlice (PInt 0) (PInt 10) PNone]) =
  Ok {| client := self.(source);
        params := [("a", PInt 5); ("t", PInt 7);
                   ("b", canonical (PInt 0) (PInt 10))] |}.
Proof.
  intros self.
  apply (flat_composite_concatenates self
           [Index "a"; InterpolatingIndex "t"; IntervalIndex "b"]
           [PInt 5; PInt 7; PSlice (PInt 0) (PInt 10) PNone]
           [ {| client := self.(source); params := [("a", PInt 5)] |};
             {| client := self.(source); params := [("t", PInt 7)] |};
             {| client := self.(source);
                params := [("b", canonical (PInt 0) (PInt 10))] |} ]).
  - reflexivity.
  - repeat constructor; simpl; intuition discriminate.
  - reflexivity.
Defined.

(** X3.  [zip] stops at the shorter of the two: the children beyond the
    number of labels are never compiled (their fields stay out of the
    query, whatever they are), and the labels beyond the number of
    children are dropped. *)
Theorem multi_query_zip_truncates (self : RestInterface)
  (indexes : list index) (labels : list pyval) :
  compile_query self (IndexSeq indexes) (PTuple labels) =
  compile_query self
    (IndexSeq (firstn (List.length labels) indexes))
    (PTuple (firstn (List.length indexes) labels)).
Proof.
  rewrite !compile_query_seq. simpl. f_equal.
  generalize (@nil (string * pyval)) as acc. revert labels.
  induction indexes as [|idx indexes IH]; intros labels acc.
  - destruct labels; reflexivity.
  - destruct labels as [|label labels]; [reflexivity|].
    cbn [List.length firstn multi_query_loop].
    destruct (compile_query self idx label); [|reflexivity].
    destruct (index_name idx); [|reflexivity].
    cbn [bind]. apply IH.
Qed.

Lemma multi_query_loop_children (self : RestInterface) (indexes : list index) :
  forall labels acc params,
    multi_query_loop self indexes labels acc = Ok params ->
    forall idx label, In (idx, label) (combine indexes labels) ->
      (exists query, compile_query self idx label = Ok query) /\
      (exists name, index_name idx = Ok name).
Proof.
  induction indexes as [|idx0 indexes IH]; intros labels acc params Hloop idx label Hin;
    [contradiction|].
  destruct labels as [|label0 labels]; [contradiction|].
  cbn [multi_query_loop] in Hloop.
  destruct (compile_query self idx0 label0) as [q|e] eqn:Hc;
    cbn [bind] in Hloop; [|discriminate].
  destruct (index_name idx0) as [n|e] eqn:Hn; cbn [bind] in Hloop; [|discriminate].
  destruct Hin as [Heq|Hin].
  - injection Heq as <- <-. split; eauto.
  - eapply IH; eauto.
Qed.

Lemma multi_query_loop_first_error (self : RestInterface)
  (indexes : list index) :
  forall labels acc pre idx label post e,
    combine indexes labels = (pre ++ (idx, label) :: post)%list ->
    (forall p, In p pre ->
       (exists query, compile_query self (fst p) (snd p) = Ok query) /\
       (exists name, index_name (fst p) = Ok name)) ->
    compile_query self idx label = Raise e ->
    multi_query_loop self indexes labels acc = Raise e.
Proof.
  induction indexes as [|idx0 indexes IH];
    intros labels acc pre idx label post e Hz Hpre He.
  - destruct pre; discriminate.
  - destruct labels as [|label0 labels]; [destruct pre; discriminate|].
    simpl in Hz. destruct pre as [|p pre]; simpl in Hz.
    + injection Hz as -> -> _. cbn [multi_query_loop]. rewrite He. reflexivity.
    + injection Hz as <- Hz.
      destruct (Hpre (idx0, label0)) as [[q Hq] [n Hn]]; [left; reflexivity|].
      simpl in Hq, Hn. cbn [multi_query_loop]. rewrite Hq, Hn. cbn [bind].
      eapply IH; eauto. intros p Hp. apply Hpre. right. exact Hp.
Qed.

(** X4.  A composite compiles only if every zipped child compiles and
    has a name; when a child fails, the composite raises the error of
    the first child that does, and nothing is returned: an unsupported
    descriptor among the zipped children is never skipped. *)
Theorem composite_raises_first_child_error (self : RestInterface)
  (indexes : list index) (labels : list pyval) :
  (forall query,
     compile_query self (IndexSeq indexes) (PTuple labels) = Ok query ->
     forall idx label, In (idx, label) (combine indexes labels) ->
       (exists q, compile_query self idx label = Ok q) /\
       (exists name, index_name idx = Ok name)) /\
  (forall pre idx label post e,
     combine indexes labels = (pre ++ (idx, label) :: post)%list ->
     (forall p, In p pre ->
        (exists q, compile_query self (fst p) (snd p) = Ok q) /\
        (exists name, index_name (fst p) = Ok name)) ->
     compile_query self idx label = Raise e ->
     compile_query self (IndexSeq indexes) (PTuple labels) = Raise e).
Proof.
  split.
  - intros query Hq idx label Hin. rewrite compile_query_seq in Hq.
    simpl in Hq.
    destruct (multi_query_loop self indexes labels []) as [params|e] eqn:Hloop;
      [|discriminate].
    eapply multi_query_loop_children; eauto.
  - intros pre idx label post e Hz Hpre He. rewrite compile_query_seq. simpl.
    rewrite (multi_query_loop_first_error self indexes labels [] pre idx label
               post e Hz Hpre He).
    reflexivity.
Qed.

(** A descriptor of an unregistered class after a value index. *)
Lemma composite_raises_first_child_error_witness :
  let self := {| source := {| url := "http://host"; headers := PNone |} |} in
  compile_query self (IndexSeq [Index "a"; OtherIndex "z"; Index "c"])
    (PTuple [PInt 1; PInt 2; PInt 3]) = Raise NotImplementedError.
Proof.
  intros self.
  destruct (composite_raises_first_child_error self
              [Index "a"; OtherIndex "z"; Index "c"]
              [PInt 1; PInt 2; PInt 3]) as [_ Hfirst].
  apply (Hfirst [(Index "a", PInt 1)] (OtherIndex "z") (PInt 2)
           [(Index "c", PInt 3)] NotImplementedError eq_refl);
    [|reflexivity].
  intros p [<-|[]]. split; eexists; reflexivity.
Defined.

(** X5.  For a [MultiIndex] the labels are the values of the label
    mapping in the mapping's own order, bound to the children by
    position: neither the keys of the mapping nor the name of the
    [MultiIndex] play a part, and the result is that of compiling the
    plain sequence of children with the tuple of those values. *)
Theorem multi_index_binds_by_position (self : RestInterface)
  (name name' : string) (indexes : list index) (d d' : dict) :
  dict_values d = dict_values d' ->
  compile_query self (MultiIndex name indexes) (PDict d) =
    compile_query self (MultiIndex name' indexes) (PDict d') /\
  compile_query self (MultiIndex name indexes) (PDict d) =
    compile_query self (IndexSeq indexes) (PTuple (dict_values d)).
Proof.
  intros Hv. rewrite !compile_query_multi, compile_query_seq. simpl.
  rewrite Hv. split; reflexivity.
Qed.

(** A mapping whose keys are in the other order than the children:
    [a] gets the label written under [b]. *)
Lemma multi_index_binds_by_position_witness :
  let self := {| source := {| url := "http://host"; headers := PNone |} |} in
  compile_query self (MultiIndex "m" [Index "a"; Index "b"])
    (PDict [("b", PInt 2); ("a", PInt 1)]) =
  Ok {| client := self.(source);
        params := [("a", PInt 2); ("b", PInt 1)] |}.
Proof.
  intros self.
  destruct (multi_index_binds_by_position self "m" "m" [Index "a"; Index "b"]
              [("b", PInt 2); ("a", PInt 1)] [("a", PInt 2); ("b", PInt 1)]
              eq_refl) as [-> _].
  reflexivity.
Defined.

(** X6.  [execute] passes the parameters and then [limit] and [skip] as
    keywords to the client's [query]; when a parameter is itself named
    [limit] or [skip] the call raises [TypeError] and the client is
    never reached.  So a query compiled from an index field of such a
    name cannot be executed. *)
Theorem execute_keyword_clash (query : RestClient -> dict -> result pyval)
  (self : RestQuery) (limit skip : pyval) :
  (dict_contains self.(params) "limit" = false ->
   dict_contains self.(params) "skip" = false ->
   RestExecute.execute query self limit skip =
   query self.(client)
     (self.(params) ++ [("limit", limit); ("skip", skip)])%list) /\
  (dict_contains self.(params) "limit" = true \/
   dict_contains self.(params) "skip" = true ->
   exists msg,
     RestExecute.execute query self limit skip = Raise (TypeError msg)).
Proof.
  unfold RestExecute.execute. cbn [RestExecute.call_keywords]. split.
  - intros Hl Hs. rewrite Hl.
    assert (dict_contains (params self ++ [("limit", limit)])%list "skip" = false)
      as ->.
    { unfold dict_contains in *. rewrite dict_get_app_last.
      destruct (dict_get (params self) "skip"); [discriminate | reflexivity]. }
    cbn [bind]. rewrite <- app_assoc. reflexivity.
  - intros H. destruct (dict_contains (params self) "limit") eqn:Hl.
    + eexists. reflexivity.
    + destruct H as [H|H]; [discriminate|].
      assert (dict_contains (params self ++ [("limit", limit)])%list "skip" = true)
        as ->.
      { unfold dict_contains in *. rewrite dict_get_app_last.
        destruct (dict_get (params self) "skip"); [reflexivity | discriminate]. }
      eexists. reflexivity.
Qed.

(** The query of a value index named [skip], and one of a field [a]. *)
Lemma execute_keyword_clash_witness :
  let client := {| url := "http://host"; headers := PNone |} in
  let query := fun (_ : RestClient) (kwargs : dict) => Ok (PDict kwargs) in
  (exists msg,
     RestExecute.execute query
       {| client := client; params := [("skip", PInt 3)] |} PNone PNone =
     Raise (TypeError msg)) /\
  RestExecute.execute query
    {| client := client; params := [("a", PInt 3)] |} (PInt 10) PNone =
  Ok (PDict [("a", PInt 3); ("limit", PInt 10); ("skip", PNone)]).
Proof.
  intros client query. split.
  - apply (execute_keyword_clash query
             {| client := client; params := [("skip", PInt 3)] |} PNone PNone).
    right. reflexivity.
  - apply (execute_keyword_clash query
             {| client := client; params := [("a", PInt 3)] |} (PInt 10) PNone);
      reflexivity.
Defined.

(** * Further properties of [rframe.py] *)

Lemma py_in_In (c : string) (names : list string) :
  py_in (PStr c) names = true <-> In c names.
Proof.
  simpl. rewrite existsb_exists. split.
  - intros (x & Hx & Heq). apply String.eqb_eq in Heq. subst. exact Hx.
  - intros Hin. exists c. split; [exact Hin | apply String.eqb_refl].
Qed.

Lemma py_in_str (c : pyval) (names : list string) :
  py_in c names = true -> exists s, c = PStr s /\ In s names.
Proof.
  destruct c; try discriminate. intros H. exists s.
  split; [reflexivity | apply py_in_In; exact H].
Qed.

Lemma combine_surplus {A B : Type} (xs : list A) :
  forall (ys extra : list B),
    List.length xs <= List.length ys ->
    combine xs (ys ++ extra) = combine xs ys.
Proof.
  induction xs as [|x xs IH]; intros ys extra Hlen; [reflexivity|].
  destruct ys as [|y ys]; simpl in *; [lia|].
  rewrite IH by lia. reflexivity.
Qed.

Lemma dict_update_append (other : list (string * pyval)) :
  forall d : dict,
    NoDup (dict_keys other) ->
    (forall k, In k (dict_keys other) -> dict_get d k = None) ->
    dict_update d other = (d ++ other)%list.
Proof.
  unfold dict_update, dict_keys.
  induction other as [|[k v] other IH]; intros d Hnd Hfresh; simpl.
  - rewrite app_nil_r. reflexivity.
  - inversion Hnd as [|? ? Hnotin Hnd']; subst.
    rewrite dict_set_fresh by (apply Hfresh; left; reflexivity).
    rewrite IH; [rewrite <- app_assoc; reflexivity | exact Hnd' |].
    intros k' Hk'. rewrite dict_get_app_last.
    rewrite (Hfresh k') by (right; exact Hk').
    destruct (String.eqb_spec k k') as [->|Hne]; [contradiction | reflexivity].
Qed.

Lemma dict_of_pairs_keys_NoDup (pairs : list (string * pyval)) :
  NoDup (dict_keys (dict_of_pairs pairs)).
Proof. apply dict_update_keys_NoDup. constructor. Qed.

(** X7.  In a selection the named labels are primary: a field given by
    name is queried by the named label even when a positional label
    binds it too (the other way round than in [set]); a field not named
    is queried by its positional label, and a field given neither way is
    not in the query at all. *)
Theorem sel_records_named_labels_override `{S : Schema} (args : list pyval)
  (kwargs : dict) (db : DB) :
  NoDup (dict_keys kwargs) ->
  RemoteFrame.sel_records args kwargs db =
    (docs <- find db (query_labels args kwargs) ;; map_result pandas_dict docs) /\
  (forall k v,
     dict_get kwargs k = Some v ->
     dict_get (query_labels args kwargs) k = Some v) /\
  (NoDup index_names ->
   forall i name lbl,
     nth_error index_names i = Some name -> nth_error args i = Some lbl ->
     dict_get kwargs name = None ->
     dict_get (query_labels args kwargs) name = Some lbl) /\
  (forall k,
     dict_get kwargs k = None ->
     (forall lbl, ~ In (k, lbl) (combine index_names args)) ->
     dict_get (query_labels args kwargs) k = None).
Proof.
  intros Hkw.
  assert (Hget : forall k,
             dict_get (query_labels args kwargs) k =
             match dict_get kwargs k with
             | Some v => Some v
             | None => dict_get (rev (combine index_names args)) k
             end).
  { intros k. unfold query_labels.
    rewrite dict_get_update, dict_get_rev, dict_get_of_pairs by exact Hkw.
    reflexivity. }
  split; [reflexivity|].
  split; [intros k v Hk; rewrite Hget, Hk; reflexivity|].
  split.
  - intros Hnd i name lbl Hname Hlbl Hk. rewrite Hget, Hk.
    pose proof (nth_error_combine_In _ _ _ _ _ Hname Hlbl) as Hin.
    apply In_dict_get.
    + apply -> in_rev. exact Hin.
    + intros v' Hv'. apply in_rev in Hv'.
      eapply combine_NoDup_functional; eauto.
  - intros k Hk Hnot. rewrite Hget, Hk. apply not_In_dict_get.
    intros v Hv. apply in_rev in Hv. exact (Hnot v Hv).
Qed.

(** [sel_records(1, a=2)] queries [a = 2]; [sel_records(1)] queries
    [a = 1]. *)
Lemma sel_records_named_labels_override_witness :
  let S := Mem.schema "thing" ["a"; "b"] ["col"] (fun _ => None) in
  dict_get (@query_labels S [PInt 1] [("a", PInt 2)]) "a" = Some (PInt 2) /\
  dict_get (@query_labels S [PInt 1] []) "a" = Some (PInt 1) /\
  dict_get (@query_labels S [PInt 1] []) "b" = None.
Proof.
  intros S.
  assert (Hnd : NoDup (@index_names S)).
  { repeat constructor; simpl; intuition discriminate. }
  split; [|split].
  - destruct (@sel_records_named_labels_override S [PInt 1] [("a", PInt 2)] [])
      as (_ & Hnamed & _).
    + repeat constructor. simpl. tauto.
    + apply Hnamed. reflexivity.
  - destruct (@sel_records_named_labels_override S [PInt 1] [] [])
      as (_ & _ & Hpos & _); [constructor|].
    apply (Hpos Hnd 0 "a" (PInt 1)); reflexivity.
  - destruct (@sel_records_named_labels_override S [PInt 1] [] [])
      as (_ & _ & _ & Hnone); [constructor|].
    apply Hnone; [reflexivity|].
    intros lbl [H|[]]. discriminate.
Defined.

(** X8.  Positional labels beyond the number of index fields are
    dropped without notice, in a selection and in [set] alike. *)
Theorem surplus_positional_labels_dropped `{S : Schema} (args extra : list pyval)
  (kwargs : dict) (db : DB) :
  List.length index_names <= List.length args ->
  RemoteFrame.sel_records (args ++ extra) kwargs db =
    RemoteFrame.sel_records args kwargs db /\
  RemoteFrame.sel (args ++ extra) kwargs db = RemoteFrame.sel args kwargs db /\
  RemoteFrame.set (args ++ extra) kwargs db = RemoteFrame.set args kwargs db.
Proof.
  intros Hlen.
  unfold RemoteFrame.sel, RemoteFrame.sel_records, RemoteFrame.set,
    RemoteFrame.set_record.
  rewrite (combine_surplus index_names args extra Hlen).
  repeat split; reflexivity.
Qed.

(** One index field, two positional labels. *)
Lemma surplus_positional_labels_dropped_witness :
  let S := Mem.schema "thing" ["a"] ["col"] (fun _ => None) in
  @RemoteFrame.set S [PInt 1; PInt 99] [("col", PInt 9)] [] =
  @RemoteFrame.set S [PInt 1] [("col", PInt 9)] [].
Proof.
  intros S.
  destruct (@surplus_positional_labels_dropped S [PInt 1] [PInt 99]
              [("col", PInt 9)] []) as (_ & _ & Hset).
  - simpl. lia.
  - exact Hset.
Defined.

Lemma map_result_getitem (column : string) (docs : list dict) :
  (forall values,
     map_result (fun doc => dict_getitem doc column) docs = Ok values <->
     Forall2 (fun doc v => dict_get doc column = Some v) docs values) /\
  ((exists doc, In doc docs /\ dict_get doc column = None) ->
   map_result (fun doc => dict_getitem doc column) docs =
   Raise (KeyError (Msg_key column))).
Proof.
  induction docs as [|doc docs [IHok IHerr]]; simpl.
  - split.
    + intros values. split.
      * intros H. injection H as <-. constructor.
      * intros H. inversion H. reflexivity.
    + intros (doc & [] & _).
  - unfold dict_getitem at 1 3.
    destruct (dict_get doc column) as [v|] eqn:Hv; simpl.
    + split.
      * intros values. split.
        -- destruct (map_result _ docs) as [vs|e]; simpl; [|discriminate].
           intros H. injection H as <-. constructor; [exact Hv|].
           apply IHok. reflexivity.
        -- intros H. inversion H as [|? v' ? vs Hd Hrest]; subst.
           apply IHok in Hrest. rewrite Hrest. simpl. congruence.
      * intros (doc' & [<-|Hin] & Hnone); [congruence|].
        rewrite IHerr by eauto. reflexivity.
    + split.
      * intros values. split; [discriminate|].
        intros H. inversion H; subst. congruence.
      * reflexivity.
Qed.

(** X9.  [sel_values] returns one value per selected record, in the
    order of the records: the record's entry for the column.  A single
    record without the column makes the whole call raise [KeyError],
    wherever it stands. *)
Theorem sel_values_one_per_record `{S : Schema} (column : string)
  (args : list pyval) (kwargs : dict) (db : DB) (docs : list dict) :
  RemoteFrame.sel_records args kwargs db = Ok docs ->
  (forall values,
     RemoteSeries.sel_values column args kwargs db = Ok values <->
     Forall2 (fun doc v => dict_get doc column = Some v) docs values) /\
  ((exists doc, In doc docs /\ dict_get doc column = None) ->
   RemoteSeries.sel_values column args kwargs db =
   Raise (KeyError (Msg_key column))).
Proof.
  intros Hdocs. unfold RemoteSeries.sel_values. rewrite Hdocs. cbn [bind].
  apply map_result_getitem.
Qed.

(** Two stored documents, the second without the column [col]. *)
Lemma sel_values_one_per_record_witness :
  let S := Mem.schema "thing" ["a"] ["col"] (fun _ => None) in
  let db := [PObj "thing" [("a", PInt 1); ("col", PInt 42)];
             PObj "thing" [("a", PInt 2)]] in
  @RemoteSeries.sel_values S "col" [] [] db = Raise (KeyError (Msg_key "col")) /\
  @RemoteSeries.sel_values S "a" [] [] db = Ok [PInt 1; PInt 2].
Proof.
  intros S db.
  destruct (@sel_values_one_per_record S "col" [] [] db
              [[("a", PInt 1); ("col", PInt 42)]; [("a", PInt 2)]] eq_refl)
    as [_ Herr].
  destruct (@sel_values_one_per_record S "a" [] [] db
              [[("a", PInt 1); ("col", PInt 42)]; [("a", PInt 2)]] eq_refl)
    as [Hok _].
  split.
  - apply Herr. exists [("a", PInt 2)]. split; [right; left|]; reflexivity.
  - apply Hok. repeat constructor.
Defined.

Lemma sel_value_first_record `{S : Schema} (column : string)
  (args : list pyval) (kwargs : dict) (db : DB) (v : pyval) :
  RemoteSeries.sel_value column args kwargs db = Ok v ->
  exists r, RemoteFrame.sel_record args kwargs db = Ok r /\
            dict_get r column = Some v.
Proof.
  unfold RemoteSeries.sel_value, RemoteSeries.sel_values,
    RemoteFrame.sel_record.
  destruct (RemoteFrame.sel_records args kwargs db) as [docs|e];
    cbn [bind]; [|discriminate].
  destruct docs as [|r docs]; cbn [map_result bind]; [discriminate|].
  unfold dict_getitem at 1.
  destruct (dict_get r column) as [v0|] eqn:Hv0; cbn [bind]; [|discriminate].
  destruct (map_result _ docs); cbn [bind]; [|discriminate].
  intros H. injection H as <-. exists r. split; [reflexivity | exact Hv0].
Qed.

(** X10.  When [sel_value] returns, its value is the column entry of the
    record [sel_record] returns for the same labels; when the selection
    is empty the two raise their own "no values" and "no records"
    [KeyError]. *)
Theorem sel_value_is_column_of_sel_record `{S : Schema} (column : string)
  (args : list pyval) (kwargs : dict) (db : DB) :
  (forall v,
     RemoteSeries.sel_value column args kwargs db = Ok v ->
     exists r, RemoteFrame.sel_record args kwargs db = Ok r /\
               dict_get r column = Some v) /\
  (RemoteFrame.sel_records args kwargs db = Ok [] ->
   RemoteSeries.sel_value column args kwargs db = Raise (KeyError Msg_no_values) /\
   RemoteFrame.sel_record args kwargs db = Raise (KeyError Msg_no_records)).
Proof.
  split.
  - intros v. apply sel_value_first_record.
  - intros Hempty.
    unfold RemoteSeries.sel_value, RemoteSeries.sel_values,
      RemoteFrame.sel_record.
    rewrite Hempty. split; reflexivity.
Qed.

(** A stored document is found by its label; another label finds
    nothing. *)
Lemma sel_value_is_column_of_sel_record_witness :
  let S := Mem.schema "thing" ["a"] ["col"] (fun _ => None) in
  let db := [PObj "thing" [("a", PInt 1); ("col", PInt 42)]] in
  (exists r, @RemoteFrame.sel_record S [PInt 1] [] db = Ok r /\
             dict_get r "col" = Some (PInt 42)) /\
  @RemoteSeries.sel_value S "col" [PInt 2] [] db = Raise (KeyError Msg_no_values).
Proof.
  intros S db. split.
  - apply (@sel_value_is_column_of_sel_record S "col" [PInt 1] [] db).
    reflexivity.
  - apply (@sel_value_is_column_of_sel_record S "col" [PInt 2] [] db).
    reflexivity.
Defined.

(** X11.  Calling the frame, [frame(column, name=label, ...)], puts the
    named labels in the declared order of the index fields and looks the
    value up through [at].  An unknown column is refused first; with a
    known column, an index field left out of the call (it becomes
    [None]) or given a slice or a list makes the call raise the "not
    unique index" [KeyError]; with every index field given a scalar the
    call is [sel_value] on those labels, and keywords that are no index
    field are ignored. *)
Theorem frame_call_needs_every_index_field `{S : Schema} (column : pyval)
  (index : dict) (db : DB) :
  let labels :=
    map (fun k => match dict_get index k with Some v => v | None => PNone end)
        index_names in
  (py_in column columns = false ->
   frame_call column index db =
   Raise (KeyError (Msg_not_found column columns))) /\
  (py_in column columns = true ->
   (exists name,
      In name index_names /\
      (dict_get index name = None \/
       exists v, dict_get index name = Some v /\
                 AtIndexer.is_slice_list_none v = true)) ->
   frame_call column index db =
   Raise (KeyError (Msg_not_unique_index labels))) /\
  (forall c,
     column = PStr c -> In c columns ->
     (forall name, In name index_names ->
        exists v, dict_get index name = Some v /\
                  AtIndexer.is_slice_list_none v = false) ->
     frame_call column index db = RemoteSeries.sel_value c labels [] db).
Proof.
  intros labels. unfold frame_call. fold labels. split; [|split].
  - intros Hcol. apply at_unknown_column. exact Hcol.
  - intros Hcol (name & Hin & Hbad).
    apply (at_non_scalar_index (PTuple labels) column db Hcol).
    simpl. apply existsb_exists.
    exists (match dict_get index name with Some v => v | None => PNone end).
    split.
    + exact (in_map
               (fun k => match dict_get index k with
                         | Some v => v
                         | None => PNone
                         end) index_names name Hin).
    + destruct Hbad as [->|(v & -> & Hv)]; [reflexivity | exact Hv].
  - intros c -> Hc Hall.
    apply (at_scalar_index (PTuple labels) c db).
    + apply py_in_In. exact Hc.
    + simpl. destruct (existsb AtIndexer.is_slice_list_none labels) eqn:He;
        [|reflexivity].
      apply existsb_exists in He as (x & Hx & Hsln).
      unfold labels in Hx. apply in_map_iff in Hx as (name & <- & Hname).
      destruct (Hall name Hname) as (v & Hv & Hsc). rewrite Hv in Hsln.
      congruence.
Qed.

(** On an index of [a] and [b]: the call without [b] raises; the call
    with both, in the other order and with a stray keyword, finds the
    value. *)
Lemma frame_call_needs_every_index_field_witness :
  let S := Mem.schema "thing" ["a"; "b"] ["col"] (fun _ => None) in
  let db := [PObj "thing" [("a", PInt 5); ("b", PInt 7); ("col", PInt 42)]] in
  @frame_call S (PStr "col") [("a", PInt 5)] db =
    Raise (KeyError (Msg_not_unique_index [PInt 5; PNone])) /\
  @frame_call S (PStr "col") [("b", PInt 7); ("z", PInt 0); ("a", PInt 5)] db =
    Ok (PInt 42).
Proof.
  intros S db. split.
  - destruct (@frame_call_needs_every_index_field S (PStr "col")
                [("a", PInt 5)] db) as (_ & Hmiss & _).
    apply Hmiss; [reflexivity|].
    exists "b". split; [right; left; reflexivity | left; reflexivity].
  - destruct (@frame_call_needs_every_index_field S (PStr "col")
                [("b", PInt 7); ("z", PInt 0); ("a", PInt 5)] db)
      as (_ & _ & Hall).
    rewrite (Hall "col" eq_refl); [reflexivity | left; reflexivity|].
    intros name [<-|[<-|[]]]; eexists; split; reflexivity.
Defined.

(** X12.  Attribute access falls back to a series exactly for the name
    of a column other than ["columns"]; for any other name, and for a
    column that is called [columns], [__getattr__] raises
    [AttributeError] with that name.  It never contacts the datastore. *)
Theorem frame_getattr_columns_only `{S : Schema} (name : string) (db : DB) :
  (In name columns /\ name <> "columns" ->
   frame_getattr name db = Ok (Series name)) /\
  (~ In name columns \/ name = "columns" ->
   frame_getattr name db = Raise (AttributeError name)).
Proof.
  unfold frame_getattr, frame_getitem. split.
  - intros [Hin Hne]. apply py_in_In in Hin.
    apply String.eqb_neq in Hne. rewrite Hne, Hin. reflexivity.
  - intros [Hnot| ->].
    + destruct (py_in (PStr name) columns) eqn:Hin.
      * exfalso. apply Hnot. apply py_in_In. exact Hin.
      * rewrite andb_false_r. reflexivity.
    + reflexivity.
Qed.

(** A frame with the columns [col] and [columns]. *)
Lemma frame_getattr_columns_only_witness :
  let S := Mem.schema "thing" ["a"] ["col"; "columns"] (fun _ => None) in
  @frame_getattr S "col" [] = Ok (Series "col") /\
  @frame_getattr S "columns" [] = Raise (AttributeError "columns") /\
  @frame_getitem S (PStr "columns") [] = Ok (Series "columns").
Proof.
  intros S. split; [|split].
  - apply (@frame_getattr_columns_only S "col" []).
    split; [left; reflexivity | discriminate].
  - apply (@frame_getattr_columns_only S "columns" []). right. reflexivity.
  - reflexivity.
Defined.

(** X13.  Subscripting the frame gives a series only for a string that
    is one of the columns.  A tuple that starts with a column is the
    selection by the rest of the tuple projected on that column; the
    empty tuple raises [IndexError], and every other key raises the "not
    a dataframe column" [KeyError]. *)
Theorem frame_getitem_cases `{S : Schema} (index : pyval) (db : DB) :
  (forall c, frame_getitem index db = Ok (Series c) <->
             index = PStr c /\ In c columns) /\
  (forall c rest,
     index = PTuple (PStr c :: rest) -> In c columns ->
     frame_getitem index db =
     (df <- RemoteFrame.sel rest [] db ;;
      df' <- df_getitem df (PStr c) ;;
      Ok (Frame df'))) /\
  (index = PTuple [] ->
   frame_getitem index db = Raise (IndexError "tuple index out of range")) /\
  ((forall c, index = PStr c -> ~ In c columns) ->
   (forall first rest, index = PTuple (first :: rest) ->
      py_in first columns = false) ->
   index <> PTuple [] ->
   frame_getitem index db = Raise (KeyError (Msg_not_a_column index))).
Proof.
  split; [|split; [|split]].
  - intros c. split.
    + unfold frame_getitem. destruct index; try discriminate.
      * destruct (py_in (PStr s) columns) eqn:Hin; [|discriminate].
        intros H. injection H as ->. split; [reflexivity|].
        apply py_in_In. exact Hin.
      * destruct items as [|first rest]; [discriminate|].
        destruct first; try discriminate.
        destruct (py_in (PStr s) columns); [|discriminate].
        destruct (RemoteSeries.getitem s (PTuple rest) db); discriminate.
    + intros [-> Hin]. unfold frame_getitem.
      apply py_in_In in Hin. rewrite Hin. reflexivity.
  - intros c rest -> Hin. unfold frame_getitem, RemoteSeries.getitem.
    apply py_in_In in Hin. rewrite Hin. simpl.
    destruct (RemoteFrame.sel rest [] db); reflexivity.
  - intros ->. reflexivity.
  - intros Hstr Htup Hne. unfold frame_getitem.
    destruct index; try reflexivity.
    + destruct (py_in (PStr s) columns) eqn:Hin; [|reflexivity].
      exfalso. apply (Hstr s eq_refl). apply py_in_In. exact Hin.
    + destruct items as [|first rest]; [congruence|].
      pose proof (Htup first rest eq_refl) as Hf.
      destruct first; try reflexivity. rewrite Hf. reflexivity.
Qed.

(** [frame["col", 1]] is [sel(1)["col"]]; [frame["nope"]] raises. *)
Lemma frame_getitem_cases_witness :
  let S := Mem.schema "thing" ["a"] ["col"] (fun _ => None) in
  @frame_getitem S (PTuple [PStr "col"; PInt 1]) [] =
    (df <- @RemoteFrame.sel S [PInt 1] [] [] ;;
     df' <- @df_getitem S df (PStr "col") ;;
     Ok (Frame df')) /\
  @frame_getitem S (PStr "nope") [] =
    Raise (KeyError (Msg_not_a_column (PStr "nope"))).
Proof.
  intros S. split.
  - apply (@frame_getitem_cases S (PTuple [PStr "col"; PInt 1]) []
             ) with (c := "col") (rest := [PInt 1]);
      [reflexivity | left; reflexivity].
  - apply (@frame_getitem_cases S (PStr "nope") []).
    + intros c H [Hc|[]]. congruence.
    + intros first rest H. discriminate.
    + discriminate.
Defined.

(** X14.  With positional labels only, [set] builds its entity from
    exactly the labels [sel_records] queries by: the index fields zipped
    with the labels, in declared order. *)
Theorem set_and_sel_bind_labels_alike `{S : Schema} (args : list pyval)
  (db : DB) :
  RemoteFrame.set_record args [] = query_labels args [] /\
  RemoteFrame.set args [] db =
    match schema_call (query_labels args []) with
    | Ok doc => save doc db
    | Raise e => (Raise e, db)
    end /\
  RemoteFrame.sel_records args [] db =
    (docs <- find db (query_labels args []) ;; map_result pandas_dict docs).
Proof.
  assert (Heq : RemoteFrame.set_record args [] = query_labels args []).
  { unfold RemoteFrame.set_record, query_labels.
    rewrite dict_update_append; [reflexivity | | reflexivity].
    apply dict_of_pairs_keys_NoDup. }
  split; [exact Heq|]. split; [|reflexivity].
  unfold RemoteFrame.set. rewrite Heq. reflexivity.
Qed.

(** X15.  Whatever [at] returns is stored: a lookup returns only for a
    key [(index, column)] with a declared column and scalar index
    components, and its value is the column entry of the record
    [sel_record] finds for those components. *)
Theorem at_returns_stored_value `{S : Schema} (key : pyval) (db : DB)
  (v : pyval) :
  AtIndexer.getitem key db = Ok v ->
  exists index c r,
    key = PTuple [index; PStr c] /\
    In c columns /\
    existsb AtIndexer.is_slice_list_none (as_tuple index) = false /\
    RemoteFrame.sel_record (as_tuple index) [] db = Ok r /\
    dict_get r c = Some v.
Proof.
  intros Hat. unfold AtIndexer.getitem in Hat.
  destruct key; try discriminate.
  destruct items as [|index [|column [|x rest]]]; try discriminate.
  destruct (py_in column columns) eqn:Hcol; simpl in Hat; [|discriminate].
  destruct (py_in_str column columns Hcol) as (c & -> & Hc).
  destruct (existsb AtIndexer.is_slice_list_none (as_tuple index)) eqn:Hsc;
    [discriminate|].
  unfold frame_getitem in Hat. rewrite Hcol in Hat. cbn [bind] in Hat.
  destruct (sel_value_first_record c (as_tuple index) [] db v Hat)
    as (r & Hr & Hv).
  exists index, c, r. repeat split; assumption.
Qed.

(** The stored value 42 is what the fully qualified lookup returns. *)
Lemma at_returns_stored_value_witness :
  let S := Mem.schema "thing" ["a"] ["col"] (fun _ => None) in
  let db := [PObj "thing" [("a", PInt 5); ("col", PInt 42)]] in
  exists r, @RemoteFrame.sel_record S [PInt 5] [] db = Ok r /\
            dict_get r "col" = Some (PInt 42).
Proof.
  intros S db.
  destruct (@at_returns_stored_value S
              (PTuple [PTuple [PInt 5]; PStr "col"]) db (PInt 42) eq_refl)
    as (index & c & r & Hkey & _ & _ & Hr & Hv).
  injection Hkey as <- <-. exists r. split; [exact Hr | exact Hv].
Defined.




